(** * Ride matching and route optimisation services: a shallow embedding

    The development follows [ai-services/services/route_optimization.py]
    and [ai-services/services/ride_matching.py].

    Conventions of the embedding.
    - Python floats are rationals ([Q]); [==] on floats is [Qeq_bool],
      [<] is [Qltb], [round] is rounding half to even on the exact value.
      Integers are [Z], lengths are [nat].  Instants are seconds, so the
      ISO strings of the estimated times are left out.  What would hold
      of exact arithmetic only (two sums computed in different orders
      being equal, a bound met at a rounding tie) is not stated.
    - A Python call either returns or raises: [outcome] has [Returned] and
      [Raised]; [try: ... except Exception] is [try_except].  The only
      loop that is not a [for] over a list is the [while] of the
      nearest-neighbour heuristic; it is run with fuel and [OutOfFuel]
      records an exhausted budget ([route_loop_terminates] shows that the
      budget given is never exhausted).
    - Python sets of strings are [gset string], dictionaries keyed by
      strings are [gmap string _]; dictionaries received from callers
      become records with optional fields.  The Redis store is a map from
      keys to the values [RedisClient.get] of [utils/redis_client.py]
      returns for them, the stored JSON text decoded; it is threaded
      through the two entry points, and expiry is left out.
    - [geodesic] (geopy) is a total function on coordinate pairs; it, the
      hash behind the cache keys, the clock, the ISO parser and the
      database query are collaborators: they are Section variables. *)

From Stdlib Require Import QArith Qround Qminmax Qabs Lqa.
From stdpp Require Import gmap strings list sorting pretty.

Local Open Scope Z_scope.
Local Open Scope Q_scope.
Local Open Scope string_scope.
Local Open Scope list_scope.
Local Open Scope stdpp_scope.

(** ** Exceptions and outcomes *)

Inductive exn : Type :=
| ValueError (msg : string)
| IndexError (msg : string)
| KeyError (key : string)
| TypeError (msg : string)
| OverflowError (msg : string)
| ZeroDivisionError.

Inductive outcome (A : Type) : Type :=
| Returned (a : A)
| Raised (e : exn)
| OutOfFuel.
Arguments Returned {A} a.
Arguments Raised {A} e.
Arguments OutOfFuel {A}.

#[global] Instance outcome_ret : MRet outcome := fun _ a => Returned a.
#[global] Instance outcome_bind : MBind outcome := fun _ _ f m =>
  match m with
  | Returned a => f a
  | Raised e => Raised e
  | OutOfFuel => OutOfFuel
  end.

(** [try: body except Exception as e: handler e] *)
Definition try_except {A} (body : outcome A) (handler : exn -> outcome A)
  : outcome A :=
  match body with
  | Raised e => handler e
  | r => r
  end.

(** ** Float helpers *)

Definition Qltb (x y : Q) : bool := negb (Qle_bool y x).

(** [min(a, b)]: the first argument unless the second is strictly smaller. *)
Definition py_min (a b : Q) : Q := if Qltb b a then b else a.
(** [max(a, b)]: the first argument unless the second is strictly larger. *)
Definition py_max (a b : Q) : Q := if Qltb a b then b else a.

(** [a / b]: raises [ZeroDivisionError] on a zero divisor. *)
Definition py_div (a b : Q) : outcome Q :=
  if Qeq_bool b 0 then Raised ZeroDivisionError else Returned (a / b).

(** [int(x)]: truncation towards zero. *)
Definition py_int (x : Q) : Z := Z.quot (Qnum x) (Zpos (Qden x)).

(** Rounding to the nearest integer, ties to even. *)
Definition round_half_even (x : Q) : Z :=
  let f := Qfloor x in
  match Qcompare (x - inject_Z f) (1 # 2) with
  | Lt => f
  | Gt => (f + 1)%Z
  | Eq => if Z.even f then f else (f + 1)%Z
  end.

(** [round(x, ndigits)] *)
Definition py_round (x : Q) (ndigits : nat) : Q :=
  inject_Z (round_half_even (x * inject_Z (10 ^ Z.of_nat ndigits)))
  / inject_Z (10 ^ Z.of_nat ndigits).

(** ** route_optimization.py: data *)

Record Waypoint : Type := mkWaypoint {
  wp_id : string;
  wp_type : string;            (* 'pickup', 'dropoff' *)
  wp_latitude : Q;
  wp_longitude : Q;
  wp_address : string;
  wp_passenger_id : string;
  wp_estimated_time : Z;       (* seconds *)
  wp_priority : Z
}.

(** The [==] of the dataclass: field by field. *)
Definition Waypoint_eqb (a b : Waypoint) : bool :=
  String.eqb (wp_id a) (wp_id b)
  && String.eqb (wp_type a) (wp_type b)
  && Qeq_bool (wp_latitude a) (wp_latitude b)
  && Qeq_bool (wp_longitude a) (wp_longitude b)
  && String.eqb (wp_address a) (wp_address b)
  && String.eqb (wp_passenger_id a) (wp_passenger_id b)
  && Z.eqb (wp_estimated_time a) (wp_estimated_time b)
  && Z.eqb (wp_priority a) (wp_priority b).

Definition coords (w : Waypoint) : Q * Q := (wp_latitude w, wp_longitude w).

Record OptimizedRoute : Type := mkOptimizedRoute {
  or_waypoints : list Waypoint;
  or_total_distance : Q;
  or_total_time : Z;
  or_total_cost : Q;
  or_efficiency_score : Q
}.

(** The constraints dictionary; [None] is an absent key. *)
Record Constraints : Type := mkConstraints {
  c_max_passengers : option Z
}.

(** Service parameters set in [__init__]. *)
Definition avg_speed_kmh : Q := 30.
Definition pickup_time_seconds : Z := 120.
Definition self_max_passengers : Z := 4.

(** [l.remove(x)]: drops the first element equal to [x]; raises when there
    is none. *)
Fixpoint list_remove (x : Waypoint) (l : list Waypoint)
  : outcome (list Waypoint) :=
  match l with
  | [] => Raised (ValueError "list.remove(x): x not in list")
  | y :: l' =>
      if Waypoint_eqb y x then Returned l'
      else l'' ← list_remove x l'; mret (y :: l'')
  end.

(** The waypoint dictionaries callers pass in; [None] is an absent key. *)
Record WaypointDict : Type := mkWaypointDict {
  d_id : option string;
  d_type : option string;
  d_latitude : option Q;
  d_longitude : option Q;
  d_address : option string;
  d_passenger_id : option string;
  d_estimated_time : option Z;
  d_priority : option Z
}.

Record Location : Type := mkLocation {
  loc_latitude : Q;
  loc_longitude : Q;
  loc_address : string
}.

(** One entry of the [passenger_routes] dictionary. *)
Record PassengerRoute : Type := mkPassengerRoute {
  pickup_order : Z;
  dropoff_order : Z;
  direct_distance_km : Q;
  estimated_pickup_time : Z;
  estimated_dropoff_time : Z;
  estimated_ride_time_minutes : Q;
  pickup_location : Location;
  dropoff_location : Location
}.

Record RouteSummary : Type := mkRouteSummary {
  total_distance_km : Q;
  total_time_minutes : Q;
  efficiency_score : Q;
  total_passengers : nat
}.

Record OptimizationMetadata : Type := mkOptimizationMetadata {
  algorithm : string;
  optimization_time_ms : Z;
  iterations : Z
}.

(** The dictionary [optimize_route] returns. *)
Record RouteResult : Type := mkRouteResult {
  optimized_waypoints : list WaypointDict;
  route_summary : RouteSummary;
  passenger_routes : gmap string PassengerRoute;
  optimization_metadata : OptimizationMetadata;
  error : option string;
  timestamp : string
}.

(** The [{'pickup': ..., 'dropoff': ...}] entry kept per passenger. *)
Record PassengerWaypoints : Type := mkPassengerWaypoints {
  pw_pickup : option Waypoint;
  pw_dropoff : option Waypoint
}.

Definition _waypoint_to_dict (waypoint : Waypoint) : WaypointDict :=
  mkWaypointDict (Some (wp_id waypoint)) (Some (wp_type waypoint))
    (Some (wp_latitude waypoint)) (Some (wp_longitude waypoint))
    (Some (wp_address waypoint)) (Some (wp_passenger_id waypoint))
    (Some (wp_estimated_time waypoint)) (Some (wp_priority waypoint)).

Definition _parse_waypoints (waypoints : list WaypointDict) : list Waypoint :=
  imap (fun i wp =>
          mkWaypoint
            (default ("waypoint_" +:+ pretty i) (d_id wp))
            (default "pickup" (d_type wp))
            (default 0 (d_latitude wp))
            (default 0 (d_longitude wp))
            (default "" (d_address wp))
            (default ("passenger_" +:+ pretty i) (d_passenger_id wp))
            (default pickup_time_seconds (d_estimated_time wp))
            (default 1%Z (d_priority wp)))
       waypoints.

(** [set(w.passenger_id for w in waypoint_objects if w.passenger_id)] *)
Definition passengers_of (waypoint_objects : list Waypoint) : gset string :=
  list_to_set (filter (fun p => p <> "") (wp_passenger_id <$> waypoint_objects)).

(** [next((i for i, wp in enumerate(route) if wp.id == id), -1)] *)
Fixpoint index_of_id (id : string) (route : list Waypoint) : Z :=
  match route with
  | [] => (-1)%Z
  | w :: route' =>
      if decide (wp_id w = id) then 0%Z
      else
        let i := index_of_id id route' in
        if (i <? 0)%Z then (-1)%Z else (i + 1)%Z
  end.

(** The grouping loop at the start of [_calculate_passenger_routes]. *)
Definition group_step (passenger_waypoints : gmap string PassengerWaypoints)
    (wp : Waypoint) : gmap string PassengerWaypoints :=
  let entry :=
    default (mkPassengerWaypoints None None)
            (passenger_waypoints !! wp_passenger_id wp) in
  let entry' :=
    if decide (wp_type wp = "pickup")
    then mkPassengerWaypoints (Some wp) (pw_dropoff entry)
    else mkPassengerWaypoints (pw_pickup entry) (Some wp) in
  <[wp_passenger_id wp := entry']> passenger_waypoints.

Definition group_by_passenger (waypoints : list Waypoint)
  : gmap string PassengerWaypoints :=
  fold_left group_step waypoints ∅.

Definition _fallback_route_optimization (now : string)
    (waypoints : list WaypointDict) : RouteResult :=
  mkRouteResult waypoints
    (mkRouteSummary 10 30 (1 # 2)
       (size (list_to_set (d_passenger_id <$> waypoints)
              : gset (option string))))
    ∅
    (mkOptimizationMetadata "fallback" 0 0)
    (Some "Route optimization failed, using fallback")
    now.

(** The message of the passenger-count check. *)
Definition too_many_passengers (count : nat) (max_passengers : Z) : string :=
  "Too many passengers: " +:+ pretty count
  +:+ " (max: " +:+ pretty max_passengers +:+ ")".

Section RouteOptimization.

(** [geodesic(a, b).kilometers] *)
Variable geodesic : Q * Q -> Q * Q -> Q.

(** Consecutive pairs [(waypoints[i], waypoints[i+1])]. *)
Definition legs (waypoints : list Waypoint) : list (Waypoint * Waypoint) :=
  zip waypoints (tail waypoints).

Definition _calculate_total_distance (waypoints : list Waypoint) : Q :=
  fold_left (fun total '(current, next_wp) =>
               total + geodesic (coords current) (coords next_wp))
            (legs waypoints) 0.

Definition _calculate_total_time (waypoints : list Waypoint) : Z :=
  if (length waypoints <? 2)%nat then 0%Z
  else
    let total_distance := _calculate_total_distance waypoints in
    let driving_time := (total_distance / avg_speed_kmh) * 3600 in
    let stop_time :=
      fold_left (fun s wp => (s + wp_estimated_time wp)%Z)
                (removelast waypoints) 0%Z in
    py_int (driving_time + inject_Z stop_time).

Definition _calculate_efficiency_score (optimized original : list Waypoint)
  : outcome Q :=
  try_except
    (let sequential_distance := _calculate_total_distance original in
     let optimized_distance := _calculate_total_distance optimized in
     if Qeq_bool sequential_distance 0 then mret 1
     else
       ratio ← py_div sequential_distance optimized_distance;
       let efficiency := py_min 1 ratio in
       mret (py_max 0 efficiency))
    (fun _ => mret (1 # 2)).

(** *** The nearest-neighbour heuristic *)

(** The local variables of [_optimize_multi_passenger_route]. *)
Record route_state : Type := mkRouteState {
  optimized_route : list Waypoint;
  current_location : Waypoint;
  remaining_pickups : list Waypoint;
  remaining_dropoffs : list Waypoint;
  passenger_in_car : gset string
}.

(** [constraints.get('max_passengers', self.max_passengers)] *)
Definition max_passengers_of (constraints : Constraints) : Z :=
  default self_max_passengers (c_max_passengers constraints).

(** The [for candidate in candidates] scan; [min_distance = None] stands
    for [float('inf')]. *)
Definition nearest_step (current : Waypoint)
    (acc : option Waypoint * option Q) (candidate : Waypoint)
  : option Waypoint * option Q :=
  let distance := geodesic (coords current) (coords candidate) in
  match snd acc with
  | None => (Some candidate, Some distance)
  | Some min_distance =>
      if Qltb distance min_distance then (Some candidate, Some distance)
      else acc
  end.

Definition nearest (current : Waypoint) (candidates : list Waypoint)
  : option Waypoint :=
  fst (fold_left (nearest_step current) candidates (None, None)).

Definition candidates_of (constraints : Constraints) (st : route_state)
  : list Waypoint :=
  let available_dropoffs :=
    filter (fun dp => wp_passenger_id dp ∈ passenger_in_car st)
           (remaining_dropoffs st) in
  if (Z.of_nat (size (passenger_in_car st)) >=? max_passengers_of constraints)%Z
  then available_dropoffs
  else remaining_pickups st ++ available_dropoffs.

(** The [while remaining_pickups or remaining_dropoffs] loop. *)
Fixpoint route_loop (fuel : nat) (constraints : Constraints) (st : route_state)
  : outcome (list Waypoint) :=
  match remaining_pickups st, remaining_dropoffs st with
  | [], [] => mret (optimized_route st)
  | _, _ =>
    match fuel with
    | O => OutOfFuel
    | S fuel' =>
      match nearest (current_location st) (candidates_of constraints st) with
      | Some next_waypoint =>
          let route := optimized_route st ++ [next_waypoint] in
          if decide (wp_type next_waypoint = "pickup") then
            rest ← list_remove next_waypoint (remaining_pickups st);
            route_loop fuel' constraints
              (mkRouteState route next_waypoint rest (remaining_dropoffs st)
                 ({[wp_passenger_id next_waypoint]} ∪ passenger_in_car st))
          else
            rest ← list_remove next_waypoint (remaining_dropoffs st);
            route_loop fuel' constraints
              (mkRouteState route next_waypoint (remaining_pickups st) rest
                 (passenger_in_car st ∖ {[wp_passenger_id next_waypoint]}))
      | None =>
          mret (optimized_route st
                ++ (remaining_pickups st ++ remaining_dropoffs st))
      end
    end
  end.

(** The state on entry to the loop, after the first pickup was taken. *)
Definition initial_state (pickups dropoffs : list Waypoint)
  : outcome route_state :=
  match pickups, dropoffs with
  | first_pickup :: rest, _ =>
      mret (mkRouteState [first_pickup] first_pickup rest dropoffs
              {[wp_passenger_id first_pickup]})
  | [], d :: _ => mret (mkRouteState [] d [] dropoffs ∅)
  | [], [] => Raised (IndexError "list index out of range")
  end.

Definition _optimize_multi_passenger_route
    (pickups dropoffs : list Waypoint) (constraints : Constraints)
  : outcome (list Waypoint) :=
  try_except
    (st ← initial_state pickups dropoffs;
     route_loop (length pickups + length dropoffs) constraints st)
    (fun _ => mret (pickups ++ dropoffs)).

Definition pickups_of (waypoints : list Waypoint) : list Waypoint :=
  filter (fun wp => wp_type wp = "pickup") waypoints.
Definition dropoffs_of (waypoints : list Waypoint) : list Waypoint :=
  filter (fun wp => wp_type wp = "dropoff") waypoints.

(** The visiting order computed at the start of
    [_optimize_with_genetic_algorithm]. *)
Definition optimized_waypoints_of
    (waypoints : list Waypoint) (constraints : Constraints)
  : outcome (list Waypoint) :=
  let pickups := pickups_of waypoints in
  let dropoffs := dropoffs_of waypoints in
  if ((length pickups =? 1) && (length dropoffs =? 1))%nat
  then mret (pickups ++ dropoffs)
  else _optimize_multi_passenger_route pickups dropoffs constraints.

Definition _optimize_with_genetic_algorithm
    (waypoints : list Waypoint) (constraints : Constraints)
  : outcome OptimizedRoute :=
  try_except
    (optimized_waypoints ← optimized_waypoints_of waypoints constraints;
     let total_distance := _calculate_total_distance optimized_waypoints in
     let total_time := _calculate_total_time optimized_waypoints in
     efficiency_score ←
       _calculate_efficiency_score optimized_waypoints waypoints;
     mret (mkOptimizedRoute optimized_waypoints total_distance total_time 0
             efficiency_score))
    (fun _ =>
       mret (mkOptimizedRoute waypoints
               (_calculate_total_distance waypoints)
               (_calculate_total_time waypoints) 0 (1 # 2))).

(** *** Per-passenger breakdown *)

Definition _calculate_waypoint_eta (waypoints : list Waypoint)
    (waypoint_index : Z) : Z :=
  if ((waypoint_index <? 0) || (Z.of_nat (length waypoints) <=? waypoint_index))%Z
  then 0%Z
  else
    py_int
      (fold_left
         (fun total_time '(current, next_wp) =>
            let distance := geodesic (coords current) (coords next_wp) in
            let driving_time := (distance / avg_speed_kmh) * 3600 in
            let stop_time := inject_Z (wp_estimated_time current) in
            total_time + (driving_time + stop_time))
         (take (Z.to_nat waypoint_index) (legs waypoints)) 0).

Definition passenger_route_of (route : list Waypoint)
    (pickup dropoff : Waypoint) : PassengerRoute :=
  let pickup_index := index_of_id (wp_id pickup) route in
  let dropoff_index := index_of_id (wp_id dropoff) route in
  let passenger_distance := geodesic (coords pickup) (coords dropoff) in
  let pickup_eta := _calculate_waypoint_eta route pickup_index in
  let dropoff_eta := _calculate_waypoint_eta route dropoff_index in
  mkPassengerRoute (pickup_index + 1) (dropoff_index + 1)
    (py_round passenger_distance 2)
    pickup_eta dropoff_eta
    (py_round (inject_Z (dropoff_eta - pickup_eta) / 60) 1)
    (mkLocation (wp_latitude pickup) (wp_longitude pickup) (wp_address pickup))
    (mkLocation (wp_latitude dropoff) (wp_longitude dropoff)
       (wp_address dropoff)).

Definition _calculate_passenger_routes (optimized_route : OptimizedRoute)
    (waypoints : list Waypoint) : gmap string PassengerRoute :=
  omap (fun psgr_waypoints =>
          match pw_pickup psgr_waypoints, pw_dropoff psgr_waypoints with
          | Some pickup, Some dropoff =>
              Some (passenger_route_of (or_waypoints optimized_route)
                      pickup dropoff)
          | _, _ => None
          end)
       (group_by_passenger waypoints).

(** *** The entry point *)

(** The md5-based key of [_generate_route_cache_key]. *)
Variable _generate_route_cache_key :
  list WaypointDict -> option Constraints -> string.

(** [datetime.utcnow().isoformat()] *)
Variable utcnow : string.

(** [json.loads(cached_result)]: [RedisClient.get] has already decoded the
    JSON text that [optimize_route] stored, so the value is a dictionary,
    which [json.loads] refuses. *)
Definition json_loads (cached_result : RouteResult) : outcome RouteResult :=
  Raised (TypeError
            "the JSON object must be str, bytes or bytearray, not dict").

(** The body of the [try] of [optimize_route]; the Redis store is threaded
    through. *)
Definition optimize_route_try (redis : gmap string RouteResult)
    (waypoints : list WaypointDict) (constraints : option Constraints)
  : outcome (RouteResult * gmap string RouteResult) :=
  let waypoint_objects := _parse_waypoints waypoints in
  if (length waypoint_objects <? 2)%nat
  then Raised (ValueError "At least 2 waypoints required")
  else
    let cache_key := _generate_route_cache_key waypoints constraints in
    match redis !! cache_key with
    | Some cached_result =>
        result ← json_loads cached_result;
        mret (result, redis)
    | None =>
        let constraints := default (mkConstraints None) constraints in
        let max_passengers :=
          Z.min (max_passengers_of constraints) self_max_passengers in
        let passengers := passengers_of waypoint_objects in
        if (max_passengers <? Z.of_nat (size passengers))%Z
        then Raised (ValueError
                       (too_many_passengers (size passengers) max_passengers))
        else
          optimized_route ←
            _optimize_with_genetic_algorithm waypoint_objects constraints;
          let passenger_routes :=
            _calculate_passenger_routes optimized_route waypoint_objects in
          let result :=
            mkRouteResult
              (_waypoint_to_dict <$> or_waypoints optimized_route)
              (mkRouteSummary
                 (py_round (or_total_distance optimized_route) 2)
                 (py_round (inject_Z (or_total_time optimized_route) / 60) 1)
                 (py_round (or_efficiency_score optimized_route) 3)
                 (size passengers))
              passenger_routes
              (mkOptimizationMetadata "genetic_algorithm" 0 100)
              None
              utcnow in
          mret (result, <[cache_key := result]> redis)
    end.

Definition optimize_route (redis : gmap string RouteResult)
    (waypoints : list WaypointDict) (constraints : option Constraints)
  : outcome (RouteResult * gmap string RouteResult) :=
  try_except (optimize_route_try redis waypoints constraints)
    (fun _ => mret (_fallback_route_optimization utcnow waypoints, redis)).

End RouteOptimization.

(** A concrete distance for the examples: the taxicab distance between the
    coordinate pairs. *)
Definition taxicab (a b : Q * Q) : Q :=
  Qabs (fst a - fst b) + Qabs (snd a - snd b).

Definition wp (id type : string) (lat lon : Q) (passenger : string) : Waypoint :=
  mkWaypoint id type lat lon "" passenger 120 1.


(** ** ride_matching.py *)

(** A row of [_get_available_rides]; the coordinate pairs are
    [(origin_lat, origin_lng)] and [(destination_lat, destination_lng)],
    absent when the row carried no coordinates.  Instants are seconds. *)
Record Ride : Type := mkRide {
  r_ride_id : string;
  r_driver_id : string;
  r_origin : option (Q * Q);
  r_destination : option (Q * Q);
  r_departure_time : Q;
  r_available_seats : Z;
  r_price_per_seat : Q;
  r_driver_rating : Q;
  r_make : string;
  r_model : string;
  r_year : Z;
  r_color : string;
  r_license_plate : string
}.

Record VehiclePrefs : Type := mkVehiclePrefs {
  vp_preferred_types : option (list string);
  vp_max_age : option Z
}.

(** The preferences dictionary; [None] is an absent key. *)
Record Preferences : Type := mkPreferences {
  p_max_distance : option Q;
  p_max_time_difference : option Q;
  p_max_price : option Q;
  p_seats_needed : option Z;
  p_vehicle_preferences : option VehiclePrefs
}.

Record VehicleInfo : Type := mkVehicleInfo {
  vi_make : string;
  vi_model : string;
  vi_year : Z;
  vi_color : string;
  vi_license_plate : string
}.

Record RideMatch : Type := mkRideMatch {
  rm_ride_id : string;
  rm_driver_id : string;
  rm_compatibility_score : Q;
  rm_distance_from_origin : Q;
  rm_distance_to_destination : Q;
  rm_time_deviation : Q;
  rm_price_per_seat : Q;
  rm_available_seats : Z;
  rm_driver_rating : Q;
  rm_vehicle_info : VehicleInfo;
  rm_estimated_pickup_time : Q;
  rm_estimated_arrival_time : Q;
  rm_route_efficiency : Q
}.

(** The dictionaries [find_matches] returns, built by [_match_to_dict]. *)
Record MatchDict : Type := mkMatchDict {
  md_ride_id : string;
  md_driver_id : string;
  md_compatibility_score : Q;
  md_distance_from_origin : Q;
  md_distance_to_destination : Q;
  md_time_deviation_hours : Q;
  md_price_per_seat : Q;
  md_available_seats : Z;
  md_driver_rating : Q;
  md_vehicle_info : VehicleInfo;
  md_estimated_pickup_time : Q;
  md_estimated_arrival_time : Q;
  md_route_efficiency : Q
}.

(** [self.weights] *)
Definition weight_distance : Q := 25 # 100.
Definition weight_time : Q := 20 # 100.
Definition weight_price : Q := 15 # 100.
Definition weight_driver_rating : Q := 15 # 100.
Definition weight_vehicle : Q := 10 # 100.
Definition weight_route_efficiency : Q := 10 # 100.
Definition weight_availability : Q := 5 # 100.

(** The minimum threshold of [find_matches]. *)
Definition threshold : Q := 3 # 10.

Definition _match_to_dict (m : RideMatch) : MatchDict :=
  mkMatchDict (rm_ride_id m) (rm_driver_id m)
    (py_round (rm_compatibility_score m) 3)
    (py_round (rm_distance_from_origin m) 2)
    (py_round (rm_distance_to_destination m) 2)
    (py_round (rm_time_deviation m) 2)
    (rm_price_per_seat m) (rm_available_seats m)
    (py_round (rm_driver_rating m) 1)
    (rm_vehicle_info m)
    (rm_estimated_pickup_time m) (rm_estimated_arrival_time m)
    (py_round (rm_route_efficiency m) 3).

(** [l.sort(key=..., reverse=True)]: stable, largest key first.  An element
    is put in front of the first element whose key is not larger. *)
Fixpoint insert_reverse {A} (key : A -> Q) (x : A) (l : list A) : list A :=
  match l with
  | [] => [x]
  | y :: l' =>
      if Qltb (key x) (key y) then y :: insert_reverse key x l'
      else x :: y :: l'
  end.

Definition sort_reverse {A} (key : A -> Q) (l : list A) : list A :=
  foldr (insert_reverse key) [] l.

Definition _calculate_vehicle_score (current_year : Z) (ride : Ride)
    (vehicle_prefs : VehiclePrefs) : Q :=
  match vp_preferred_types vehicle_prefs, vp_max_age vehicle_prefs with
  | None, None => 1                       (* no preferences: full score *)
  | _, _ =>
      let score := 1 in
      match vp_max_age vehicle_prefs with
      | Some max_age =>
          let vehicle_age := (current_year - r_year ride)%Z in
          if (max_age <? vehicle_age)%Z then score * (7 # 10) else score
      | None => score
      end
  end.

(** Instants are seconds since 1970-01-01T00:00:00, durations are seconds.
    A [datetime] lies in the years 1 to 9999 and a [timedelta] within
    999999999 days either way; both raise [OverflowError] beyond. *)
Definition datetime_min : Q := -62135596800.
Definition datetime_end : Q := 253402300800.
Definition timedelta_min : Q := -86399999913600.
Definition timedelta_end : Q := 86400000000000.

(** [timedelta(hours=hours)] *)
Definition timedelta_hours (hours : Q) : outcome Q :=
  let seconds := hours * 3600 in
  if Qle_bool timedelta_min seconds && Qltb seconds timedelta_end
  then mret seconds
  else Raised (OverflowError "days; must have magnitude <= 999999999").

(** [instant + delta] on a [datetime] and a [timedelta] *)
Definition datetime_add (instant delta : Q) : outcome Q :=
  let result := instant + delta in
  if Qle_bool datetime_min result && Qltb result datetime_end
  then mret result
  else Raised (OverflowError "date value out of range").

(** The average speed is 40 km/h; on any exception both instants are the
    departure of the ride. *)
Definition _estimate_times (ride_departure origin_distance
    destination_distance : Q) : outcome (Q * Q) :=
  try_except
    (let avg_speed := 40 in
     pickup_travel_time ← timedelta_hours (origin_distance / avg_speed);
     pickup_time ← datetime_add ride_departure pickup_travel_time;
     arrival_travel_time ←
       timedelta_hours (destination_distance / avg_speed);
     arrival_time ← datetime_add pickup_time arrival_travel_time;
     mret (pickup_time, arrival_time))
    (fun _ => mret (ride_departure, ride_departure)).

Section RideMatching.

Variable geodesic : Q * Q -> Q * Q -> Q.

Definition _calculate_route_efficiency (passenger_origin passenger_destination
    ride_origin ride_destination : Q * Q) : outcome Q :=
  try_except
    (let passenger_direct := geodesic passenger_origin passenger_destination in
     let leg1 := geodesic passenger_origin ride_origin in
     let leg2 := geodesic ride_origin ride_destination in
     let leg3 := geodesic ride_destination passenger_destination in
     let total_via_ride := leg1 + leg2 + leg3 in
     if Qeq_bool total_via_ride 0 then mret 0
     else
       efficiency ← py_div passenger_direct total_via_ride;
       mret (py_min 1 efficiency))
    (fun _ => mret (1 # 2)).

(** [datetime.now().year] *)
Variable current_year : Z.

Definition get_coords (key : string) (c : option (Q * Q)) : outcome (Q * Q) :=
  match c with
  | Some p => mret p
  | None => Raised (KeyError key)
  end.

(** The body of the [try] of [_calculate_compatibility]. *)
Definition _calculate_compatibility_try (ride : Ride)
    (origin destination : Q * Q) (departure_time : Q)
    (preferences : Preferences) : outcome RideMatch :=
  ride_origin ← get_coords "origin_lat" (r_origin ride);
  ride_destination ← get_coords "destination_lat" (r_destination ride);
  let passenger_origin := origin in
  let passenger_destination := destination in
  let origin_distance := geodesic passenger_origin ride_origin in
  let destination_distance :=
    geodesic passenger_destination ride_destination in
  let max_acceptable_distance := default 10 (p_max_distance preferences) in
  d ← py_div (origin_distance + destination_distance)
             (2 * max_acceptable_distance);
  let distance_score := py_max 0 (1 - d) in
  let ride_departure := r_departure_time ride in
  let time_diff := Qabs ((departure_time - ride_departure) / 3600) in
  let max_time_diff := default 2 (p_max_time_difference preferences) in
  t ← py_div time_diff max_time_diff;
  let time_score := py_max 0 (1 - t) in
  let price_per_seat := r_price_per_seat ride in
  let max_price :=
    default (price_per_seat * (15 # 10)) (p_max_price preferences) in
  p ← py_div (py_max 0 (price_per_seat - max_price)) max_price;
  let price_score := py_max 0 (1 - p) in
  let driver_rating := r_driver_rating ride in
  let rating_score := (driver_rating - 1) / 4 in
  let vehicle_score :=
    _calculate_vehicle_score current_year ride
      (default (mkVehiclePrefs None None) (p_vehicle_preferences preferences)) in
  route_efficiency ←
    _calculate_route_efficiency passenger_origin passenger_destination
      ride_origin ride_destination;
  a ← py_div (inject_Z (r_available_seats ride))
             (inject_Z (default 1%Z (p_seats_needed preferences)));
  let availability_score := py_min 1 a in
  let compatibility_score :=
    distance_score * weight_distance
    + time_score * weight_time
    + price_score * weight_price
    + rating_score * weight_driver_rating
    + vehicle_score * weight_vehicle
    + route_efficiency * weight_route_efficiency
    + availability_score * weight_availability in
  '(pickup_time, arrival_time) ←
    _estimate_times ride_departure origin_distance destination_distance;
  mret (mkRideMatch (r_ride_id ride) (r_driver_id ride) compatibility_score
          origin_distance destination_distance time_diff price_per_seat
          (r_available_seats ride) driver_rating
          (mkVehicleInfo (r_make ride) (r_model ride) (r_year ride)
             (r_color ride) (r_license_plate ride))
          pickup_time arrival_time route_efficiency).

(** [except Exception: return None] *)
Definition _calculate_compatibility (ride : Ride)
    (origin destination : Q * Q) (departure_time : Q)
    (preferences : Preferences) : option RideMatch :=
  match _calculate_compatibility_try ride origin destination departure_time
          preferences with
  | Returned m => Some m
  | _ => None
  end.

(** The md5-based key of [_generate_cache_key], for an origin and a
    destination that carry both coordinates: the pairs are
    [(latitude, longitude)].  A dictionary without one of the two keys
    makes [_generate_cache_key] raise [KeyError]; such requests are not
    described here. *)
Variable _generate_cache_key :
  Q * Q -> Q * Q -> string -> Preferences -> string.

(** [datetime.fromisoformat(departure_time.replace('Z', '+00:00'))] *)
Variable fromisoformat : string -> outcome Q.

(** The database query; it returns [[]] on any error of its own. *)
Variable _get_available_rides : Q -> Preferences -> list Ride.

(** The scoring loop of [find_matches]. *)
Definition matches_of (available_rides : list Ride)
    (origin destination : Q * Q) (departure_dt : Q)
    (preferences : Preferences) : list RideMatch :=
  omap (fun ride =>
          match _calculate_compatibility ride origin destination departure_dt
                  preferences with
          | Some m =>
              if Qltb threshold (rm_compatibility_score m) then Some m else None
          | None => None
          end)
       available_rides.

(** [find_matches]; an empty cached list is falsy and is recomputed. *)
Definition find_matches (redis : gmap string (list MatchDict))
    (origin destination : Q * Q) (departure_time : string)
    (preferences : Preferences)
  : outcome (list MatchDict * gmap string (list MatchDict)) :=
  let cache_key :=
    _generate_cache_key origin destination departure_time preferences in
  match redis !! cache_key with
  | Some (m :: cached) => mret (m :: cached, redis)
  | _ =>
      departure_dt ← fromisoformat departure_time;
      match _get_available_rides departure_dt preferences with
      | [] => mret ([], redis)
      | available_rides =>
          let matches :=
            matches_of available_rides origin destination departure_dt
              preferences in
          let matches := sort_reverse rm_compatibility_score matches in
          let result := _match_to_dict <$> take 20 matches in
          mret (result, <[cache_key := result]> redis)
      end
  end.

End RideMatching.

(** ** Properties of routes used in the statements *)

(** One pickup/dropoff pair per passenger: every waypoint is a pickup or a
    dropoff, no passenger has two pickups or two dropoffs, and the
    passengers picked up are the passengers dropped off. *)
Definition one_pair_per_passenger (waypoints : list Waypoint) : Prop :=
  Forall (fun w => wp_type w = "pickup" \/ wp_type w = "dropoff") waypoints
  /\ NoDup (wp_passenger_id <$> pickups_of waypoints)
  /\ NoDup (wp_passenger_id <$> dropoffs_of waypoints)
  /\ (list_to_set (wp_passenger_id <$> pickups_of waypoints) : gset string)
     = list_to_set (wp_passenger_id <$> dropoffs_of waypoints).

#[global] Instance one_pair_per_passenger_dec waypoints :
  Decision (one_pair_per_passenger waypoints).
Proof. unfold one_pair_per_passenger. apply _. Defined.

(** Every pickup comes before the dropoff of the same passenger. *)
Definition pickup_before_dropoff (route : list Waypoint) : Prop :=
  forall (i j : nat) (p d : Waypoint),
    route !! i = Some p -> route !! j = Some d ->
    wp_type p = "pickup" -> wp_type d = "dropoff" ->
    wp_passenger_id p = wp_passenger_id d ->
    (i < j)%nat.

(** Replaying a route: a passenger is aboard from the pickup until the
    dropoff. *)
Definition board (in_vehicle : gset string) (w : Waypoint) : gset string :=
  if decide (wp_type w = "pickup")
  then {[wp_passenger_id w]} ∪ in_vehicle
  else in_vehicle ∖ {[wp_passenger_id w]}.

Definition in_vehicle_after (route : list Waypoint) : gset string :=
  foldl board ∅ route.

(** At no point of the replay are more than [cap] passengers aboard. *)
Definition capacity_respected (cap : Z) (route : list Waypoint) : Prop :=
  forall n : nat,
    (Z.of_nat (size (in_vehicle_after (take n route))) <= cap)%Z.

(** Every dropoff of the route has the pickup of its passenger at an
    earlier position. *)
Definition paired_prefix (route : list Waypoint) : Prop :=
  forall (j : nat) (d : Waypoint),
    route !! j = Some d -> wp_type d = "dropoff" ->
    exists (i : nat) (p : Waypoint),
      (i < j)%nat /\ route !! i = Some p /\ wp_type p = "pickup"
      /\ wp_passenger_id p = wp_passenger_id d.

(** What the [while] loop of the heuristic maintains: the waypoints are
    split between the route built so far and the two remaining lists, the
    remaining lists keep their kinds, the set of passengers in the car is
    the one the replay of the route gives, the route is ordered and within
    capacity. *)
Record loop_inv (waypoints : list Waypoint) (cap : Z) (st : route_state)
  : Prop := mkLoopInv {
  inv_perm :
    optimized_route st ++ remaining_pickups st ++ remaining_dropoffs st
    ≡ₚ waypoints;
  inv_pickups :
    Forall (fun w => wp_type w = "pickup") (remaining_pickups st);
  inv_dropoffs :
    Forall (fun w => wp_type w = "dropoff") (remaining_dropoffs st);
  inv_car : passenger_in_car st = in_vehicle_after (optimized_route st);
  inv_order : paired_prefix (optimized_route st);
  inv_capacity :
    (1 <= cap)%Z -> capacity_respected cap (optimized_route st)
}.

(** The accumulator of the candidate scan holds a waypoint exactly when it
    holds a distance. *)
Definition scan_ok (acc : option Waypoint * option Q) : Prop :=
  is_Some (fst acc) <-> is_Some (snd acc).

(** ** Concrete inputs *)

(** Two passengers on a line: a rides from 0 to 5, b from 1 to 2. *)
Definition two_passengers : list Waypoint :=
  [wp "p1" "pickup" 0 0 "a"; wp "d1" "dropoff" 5 0 "a";
   wp "p2" "pickup" 1 0 "b"; wp "d2" "dropoff" 2 0 "b"].

(** Scenario C: passenger a is picked up and dropped off, passenger b is
    only dropped off. *)
Definition scenario_c : list Waypoint :=
  [wp "p1" "pickup" 0 0 "a"; wp "d1" "dropoff" 5 0 "a";
   wp "d2" "dropoff" 2 0 "b"].

Definition no_constraints : Constraints := mkConstraints None.

(** Waypoint dictionaries as a caller sends them. *)
Definition wd (id type : string) (lat lon : Q) (passenger : string)
  : WaypointDict :=
  mkWaypointDict (Some id) (Some type) (Some lat) (Some lon) None
    (Some passenger) None None.

(** A single waypoint. *)
Definition single_waypoint : list WaypointDict :=
  [wd "p1" "pickup" 0 0 "a"].

(** Scenario D: five passengers. *)
Definition scenario_d : list WaypointDict :=
  [wd "p1" "pickup" 0 0 "a"; wd "p2" "pickup" 1 0 "b";
   wd "p3" "pickup" 2 0 "c"; wd "p4" "pickup" 3 0 "d";
   wd "p5" "pickup" 4 0 "e"].

(** A pickup and a dropoff at the same place, with a stop of another kind
    in between. *)
Definition round_trip : list WaypointDict :=
  [wd "p1" "pickup" 0 0 "a"; wd "s1" "stop" 1 1 "a";
   wd "d1" "dropoff" 0 0 "a"].

Definition example_key (waypoints : list WaypointDict)
    (constraints : option Constraints) : string := "route_opt:0".

Definition example_now : string := "2025-01-21T00:00:00".

(** One passenger, and a sequenced route that lost the dropoff. *)
Definition one_passenger : list Waypoint :=
  [wp "p1" "pickup" 0 0 "a"; wp "d1" "dropoff" 5 0 "a"].

Definition incomplete_route : OptimizedRoute :=
  mkOptimizedRoute [wp "p1" "pickup" 0 0 "a"] 0 0 0 1.

(** A ride offer; one seat at 10 per seat. *)
Definition ride (id : string) (origin destination : Q * Q)
    (departure rating : Q) : Ride :=
  mkRide id ("driver_" +:+ id) (Some origin) (Some destination) departure
    1 10 rating "Toyota" "Corolla" 2020 "white" "B 123".

Definition no_preferences : Preferences :=
  mkPreferences None None None None None.


(** Two rides that differ only in how far they are from a passenger whose
    origin and destination are both (0, 0): the first is twice as far from
    the origin as the second, both are out of the acceptable distance. *)
Definition tied_rides : list Ride :=
  [ride "r2" (0, 20) (0, 20) 0 5; ride "r1" (0, 10) (0, 10) 0 5].

Definition example_match_key (origin destination : Q * Q)
    (departure_time : string) (preferences : Preferences) : string :=
  "ride_matches:0".

Definition example_fromisoformat (departure_time : string) : outcome Q :=
  Returned 0.

(** ** Callers *)

(** An entry of the list [get_route_alternatives] returns: the dictionary
    of [optimize_route] with the key ['alternative_id'] added. *)
Record Alternative : Type := mkAlternative {
  alt_result : RouteResult;
  alt_alternative_id : Z
}.

(** The constraints of alternative [i].  The dictionary also carries
    ['max_detour_factor'], which nothing reads and which [i] determines
    together with ['max_passengers']; it has no field here. *)
Definition modified_constraints (i : nat) : Constraints :=
  mkConstraints (Some (self_max_passengers - Z.of_nat i)%Z).

Section Callers.

Variable geodesic : Q * Q -> Q * Q -> Q.
Variable _generate_route_cache_key :
  list WaypointDict -> option Constraints -> string.
Variable utcnow : string.

(** The [for i in range(num_alternatives)] loop, from alternative [i] on,
    [n] alternatives to go; the Redis store is threaded through the calls
    of [optimize_route]. *)
Fixpoint alternatives_from (i n : nat) (redis : gmap string RouteResult)
    (waypoints : list WaypointDict)
  : outcome (list Alternative * gmap string RouteResult) :=
  match n with
  | O => mret ([], redis)
  | S n' =>
      '(alternative, redis1) ←
        optimize_route geodesic _generate_route_cache_key utcnow redis
          waypoints (Some (modified_constraints i));
      '(alternatives, redis2) ← alternatives_from (S i) n' redis1 waypoints;
      mret (mkAlternative alternative (Z.of_nat i + 1) :: alternatives, redis2)
  end.

(** [get_route_alternatives]; on an exception the calls made so far have
    already changed the store. *)
Definition get_route_alternatives (redis : gmap string RouteResult)
    (waypoints : list WaypointDict) (num_alternatives : Z)
  : outcome (list Alternative * gmap string RouteResult) :=
  try_except
    (alternatives_from 0 (Z.to_nat num_alternatives) redis waypoints)
    (fun _ => mret ([], redis)).

End Callers.

(** ** Further concrete inputs *)

(** Five pickups sent without passenger ids. *)
Definition anonymous_pickups : list WaypointDict :=
  (fun '(id, lat) =>
     mkWaypointDict (Some id) (Some "pickup") (Some lat) (Some 0) None None
       None None)
    <$> [("p1", 0); ("p2", 1); ("p3", 2); ("p4", 3); ("p5", 4)].

(** The two passengers of [two_passengers], as a caller sends them. *)
Definition two_passenger_request : list WaypointDict :=
  [wd "p1" "pickup" 0 0 "a"; wd "d1" "dropoff" 5 0 "a";
   wd "p2" "pickup" 1 0 "b"; wd "d2" "dropoff" 2 0 "b"].

(** A ride 10 away from a passenger whose origin and destination are both
    (0, 0). *)
Definition far_ride : Ride := ride "r1" (0, 10) (0, 10) 0 5.

(** Passenger a with a stop that is neither a pickup nor a dropoff, a
    second pickup of passenger a, and a dropoff of passenger b, who is
    never picked up. *)
Definition mixed_waypoints : list Waypoint :=
  [wp "p1" "pickup" 0 0 "a"; wp "s1" "stop" 1 0 "a";
   wp "d1" "dropoff" 5 0 "a"; wp "p2" "pickup" 3 0 "a";
   wp "d2" "dropoff" 2 0 "b"].

(** * Theorems *)

(** ** Floats *)

Lemma Qltb_lt (x y : Q) : Qltb x y = true <-> x < y.
Proof.
  unfold Qltb. rewrite negb_true_iff, <- not_true_iff_false, Qle_bool_iff.
  split; [apply Qnot_le_lt | apply Qlt_not_le].
Qed.

Lemma Qltb_ge (x y : Q) : Qltb x y = false <-> y <= x.
Proof.
  unfold Qltb. rewrite negb_false_iff. apply Qle_bool_iff.
Qed.

Lemma py_min_spec (a b : Q) : py_min a b == Qmin a b.
Proof.
  unfold py_min. destruct (Qltb b a) eqn:E.
  - apply Qltb_lt in E. symmetry. apply Q.min_r. by apply Qlt_le_weak.
  - apply Qltb_ge in E. symmetry. by apply Q.min_l.
Qed.

Lemma py_max_spec (a b : Q) : py_max a b == Qmax a b.
Proof.
  unfold py_max. destruct (Qltb a b) eqn:E.
  - apply Qltb_lt in E. symmetry. apply Q.max_r. by apply Qlt_le_weak.
  - apply Qltb_ge in E. symmetry. by apply Q.max_l.
Qed.

Lemma py_max_lower (a b : Q) : a <= py_max a b.
Proof. rewrite py_max_spec. apply Q.le_max_l. Qed.

Lemma py_min_upper (a b : Q) : py_min a b <= a.
Proof. rewrite py_min_spec. apply Q.le_min_l. Qed.

Lemma taxicab_nonneg (a b : Q * Q) : 0 <= taxicab a b.
Proof.
  unfold taxicab.
  apply (Qplus_le_compat 0 _ 0 _); apply Qabs_nonneg.
Qed.

(** ** The efficiency score *)

Section EfficiencyScore.

Variable geodesic : Q * Q -> Q * Q -> Q.
Hypothesis geodesic_nonneg : forall a b, 0 <= geodesic a b.

Abbreviation distance := (_calculate_total_distance geodesic).

Lemma fold_distance_nonneg (l : list (Waypoint * Waypoint)) (acc : Q) :
  0 <= acc ->
  0 <= fold_left (fun total '(current, next_wp) =>
                    total + geodesic (coords current) (coords next_wp)) l acc.
Proof using geodesic_nonneg.
  revert acc. induction l as [|[c n] l IH]; intros acc Hacc; simpl; [done|].
  apply IH. apply (Qplus_le_compat 0 _ 0 _); [done | apply geodesic_nonneg].
Qed.

Lemma total_distance_nonneg (waypoints : list Waypoint) :
  0 <= distance waypoints.
Proof using geodesic_nonneg.
  apply fold_distance_nonneg. apply Qle_refl.
Qed.

(** C9 (as amended): the score is always returned and lies in [0,1]; it is
    1 when the original order has distance 0 and when both distances are
    equal; when neither distance is 0 it is
    [min(1, distance(original) / distance(sequenced))]; when the sequenced
    distance is 0 and the original one is not, the division fails and the
    score is the fixed 0.5. *)
Theorem efficiency_score_cases (optimized original : list Waypoint) :
  exists score,
    _calculate_efficiency_score geodesic optimized original = Returned score
    /\ 0 <= score <= 1
    /\ (distance original == 0 -> score == 1)
    /\ (distance original == distance optimized -> score == 1)
    /\ (~ distance original == 0 -> ~ distance optimized == 0 ->
        score == Qmin 1 (distance original / distance optimized))
    /\ (~ distance original == 0 -> distance optimized == 0 ->
        score = 1 # 2).
Proof using geodesic_nonneg.
  unfold _calculate_efficiency_score, py_div.
  pose proof (total_distance_nonneg original) as Hs.
  pose proof (total_distance_nonneg optimized) as Ho.
  destruct (Qeq_bool (distance original) 0) eqn:Es.
  - apply Qeq_bool_iff in Es. exists 1. simpl.
    repeat split; done.
  - apply Qeq_bool_neq in Es.
    destruct (Qeq_bool (distance optimized) 0) eqn:Eo.
    + apply Qeq_bool_iff in Eo. exists (1 # 2). simpl.
      repeat split; try done.
      intros H. destruct Es. by rewrite H.
    + apply Qeq_bool_neq in Eo.
      set (ratio := distance original / distance optimized).
      assert (0 <= ratio) as Hr.
      { unfold ratio. apply Qle_shift_div_l; [|by rewrite Qmult_0_l].
        destruct (Qle_lt_or_eq _ _ Ho) as [?|E]; [done|]. by destruct Eo. }
      assert (py_max 0 (py_min 1 ratio) == Qmin 1 ratio) as Hval.
      { rewrite py_max_spec, py_min_spec. apply Q.max_r.
        apply Q.min_glb; done. }
      exists (py_max 0 (py_min 1 ratio)). simpl.
      split; [done|]. split; [|split; [|split; [|split]]].
      * split; [apply py_max_lower|]. rewrite Hval. apply Q.le_min_l.
      * intros H. by destruct Es.
      * intros H. rewrite Hval. apply Q.min_l.
        unfold ratio. rewrite H. unfold Qdiv.
        rewrite Qmult_inv_r by done. apply Qle_refl.
      * intros _ _. exact Hval.
      * intros _ H. by destruct Eo.
Qed.

End EfficiencyScore.

(** ** The sequencer *)

Lemma Waypoint_eqb_refl (w : Waypoint) : Waypoint_eqb w w = true.
Proof.
  unfold Waypoint_eqb.
  rewrite !String.eqb_refl, !Qeq_bool_refl, !Z.eqb_refl. done.
Qed.

Lemma Waypoint_eqb_passenger (a b : Waypoint) :
  Waypoint_eqb a b = true -> wp_passenger_id a = wp_passenger_id b.
Proof.
  unfold Waypoint_eqb. rewrite !andb_true_iff.
  intros [[[_ H] _] _]. by apply String.eqb_eq.
Qed.

(** Removing an element that is in the list succeeds; when passenger ids
    identify the elements of the list, it removes that very element. *)
Lemma list_remove_elem (x : Waypoint) (l : list Waypoint) :
  x ∈ l ->
  (forall y, y ∈ l -> wp_passenger_id y = wp_passenger_id x -> y = x) ->
  exists l', list_remove x l = Returned l' /\ l ≡ₚ x :: l'.
Proof.
  induction l as [|a l IH]; intros Hin Hinj.
  - by apply elem_of_nil in Hin.
  - simpl. destruct (Waypoint_eqb a x) eqn:E.
    + assert (a = x) as ->.
      { apply Hinj; [left | by apply Waypoint_eqb_passenger]. }
      by exists l.
    + apply elem_of_cons in Hin as [->|Hin].
      { by rewrite Waypoint_eqb_refl in E. }
      destruct IH as (l' & -> & Hperm); [done | |].
      { intros y Hy. apply Hinj. by right. }
      exists (a :: l'). split; [done|].
      rewrite Hperm. apply Permutation_swap.
  Qed.

Lemma NoDup_fmap_elem_inj {A B} (f : A -> B) (l : list A) (x y : A) :
  NoDup (f <$> l) -> x ∈ l -> y ∈ l -> f x = f y -> x = y.
Proof.
  induction l as [|a l IH]; intros Hnd Hx Hy Hf.
  - by apply elem_of_nil in Hx.
  - rewrite fmap_cons in Hnd. apply NoDup_cons in Hnd as [Hna Hnd].
    apply elem_of_cons in Hx as [->|Hx]; apply elem_of_cons in Hy as [->|Hy].
    + done.
    + destruct Hna. rewrite Hf. by apply list_elem_of_fmap_2.
    + destruct Hna. rewrite <- Hf. by apply list_elem_of_fmap_2.
    + by apply IH.
Qed.

Section Nearest.

Variable geodesic : Q * Q -> Q * Q -> Q.
Variable current : Waypoint.

Lemma nearest_step_ok acc candidate :
  scan_ok acc ->
  let acc' := nearest_step geodesic current acc candidate in
  scan_ok acc' /\ is_Some (fst acc')
  /\ (fst acc' = fst acc \/ fst acc' = Some candidate).
Proof.
  intros Hok. unfold nearest_step. destruct acc as [w [m|]]; simpl.
  - destruct (Qltb _ m); simpl.
    + split; [by split|]. split; [done | by right].
    + split; [done|]. split; [|by left]. apply Hok. done.
  - split; [by split|]. split; [done | by right].
Qed.

Lemma nearest_fold_ok (candidates : list Waypoint) acc :
  scan_ok acc ->
  let r := fold_left (nearest_step geodesic current) candidates acc in
  (is_Some (fst acc) \/ candidates <> [] -> is_Some (fst r))
  /\ (fst r = fst acc \/ exists w, fst r = Some w /\ w ∈ candidates).
Proof.
  revert acc. induction candidates as [|c l IH]; intros acc Hok; simpl.
  - split; [intros [?|?]; done | by left].
  - destruct (nearest_step_ok acc c Hok) as (Hok' & Hsome & Hfst).
    destruct (IH _ Hok') as [IH1 IH2]. split.
    + intros _. apply IH1. by left.
    + destruct IH2 as [E|(w & E & Hw)].
      * rewrite E. destruct Hfst as [?|E']; [by left|].
        right. exists c. split; [done | left].
      * right. exists w. split; [done | by right].
Qed.

Lemma nearest_nil : nearest geodesic current [] = None.
Proof. done. Qed.

Lemma nearest_elem (candidates : list Waypoint) (w : Waypoint) :
  nearest geodesic current candidates = Some w -> w ∈ candidates.
Proof.
  unfold nearest. intros E.
  destruct (nearest_fold_ok candidates (None, None)) as [_ [H|(w' & H & Hw)]].
  - by split; intros [? ?].
  - rewrite E in H. done.
  - rewrite E in H. by injection H as ->.
Qed.

Lemma nearest_is_Some (candidates : list Waypoint) :
  candidates <> [] -> is_Some (nearest geodesic current candidates).
Proof.
  unfold nearest. intros Hne.
  destruct (nearest_fold_ok candidates (None, None)) as [H _].
  - by split; intros [? ?].
  - apply H. by right.
Qed.

End Nearest.

(** *** Replaying a route *)

Lemma in_vehicle_after_snoc (route : list Waypoint) (w : Waypoint) :
  in_vehicle_after (route ++ [w]) = board (in_vehicle_after route) w.
Proof. unfold in_vehicle_after. by rewrite foldl_app. Qed.

Lemma in_vehicle_after_nil : in_vehicle_after [] = ∅.
Proof. done. Qed.

Lemma in_vehicle_after_pickup (w : Waypoint) :
  wp_type w = "pickup" -> in_vehicle_after [w] = {[wp_passenger_id w]}.
Proof.
  intros Hw. unfold in_vehicle_after, board. simpl.
  case_decide; [|done]. apply union_empty_r_L.
Qed.

Lemma capacity_respected_pickup (cap : Z) (w : Waypoint) :
  (1 <= cap)%Z -> wp_type w = "pickup" -> capacity_respected cap [w].
Proof.
  intros H1 Hw [|n].
  - rewrite take_0, in_vehicle_after_nil, size_empty. lia.
  - rewrite firstn_cons, take_nil, in_vehicle_after_pickup, size_singleton
      by done. lia.
Qed.

Lemma aboard_picked (route : list Waypoint) (x : string) :
  x ∈ in_vehicle_after route ->
  exists p, p ∈ route /\ wp_type p = "pickup" /\ wp_passenger_id p = x.
Proof.
  induction route as [|w r IH] using rev_ind; intros Hx.
  - by apply not_elem_of_empty in Hx.
  - rewrite in_vehicle_after_snoc in Hx. unfold board in Hx.
    destruct (decide (wp_type w = "pickup")) as [Hw|Hw].
    + apply elem_of_union in Hx as [Hx|Hx].
      * apply elem_of_singleton in Hx as ->. exists w.
        split; [|done]. apply elem_of_app. right. left.
      * destruct (IH Hx) as (p & Hp & ?). exists p.
        split; [|done]. apply elem_of_app. by left.
    + apply elem_of_difference in Hx as [Hx _].
      destruct (IH Hx) as (p & Hp & ?). exists p.
      split; [|done]. apply elem_of_app. by left.
Qed.

Lemma paired_prefix_app_l (r r' : list Waypoint) :
  paired_prefix (r ++ r') -> paired_prefix r.
Proof.
  intros H j d Hj Hd.
  pose proof (lookup_lt_Some _ _ _ Hj) as Hlt.
  destruct (H j d) as (i & p & Hij & Hi & Hp); [|done|].
  { by rewrite lookup_app_l. }
  exists i, p. split; [done|]. split; [|done].
  rewrite lookup_app_l in Hi; [done|lia].
Qed.

Lemma paired_prefix_snoc (r : list Waypoint) (w : Waypoint) :
  paired_prefix r ->
  (wp_type w = "dropoff" ->
   exists p, p ∈ r /\ wp_type p = "pickup"
             /\ wp_passenger_id p = wp_passenger_id w) ->
  paired_prefix (r ++ [w]).
Proof.
  intros H Hw j d Hj Hd.
  destruct (decide (j < length r)%nat) as [Hlt|Hge].
  - rewrite lookup_app_l in Hj by done.
    destruct (H j d Hj Hd) as (i & p & Hij & Hi & Hp).
    exists i, p. split; [done|]. split; [|done].
    rewrite lookup_app_l; [done|lia].
  - rewrite lookup_app_r in Hj by lia.
    apply list_lookup_singleton_Some in Hj as [Hj ->].
    destruct (Hw Hd) as (p & Hp & Hty & Hid).
    apply list_elem_of_lookup in Hp as [i Hi].
    pose proof (lookup_lt_Some _ _ _ Hi) as Hlt.
    exists i, p. split; [lia|]. split; [|done].
    by rewrite lookup_app_l.
Qed.

Lemma pickups_of_app (l1 l2 : list Waypoint) :
  pickups_of (l1 ++ l2) = pickups_of l1 ++ pickups_of l2.
Proof. apply filter_app. Qed.

Lemma dropoffs_of_app (l1 l2 : list Waypoint) :
  dropoffs_of (l1 ++ l2) = dropoffs_of l1 ++ dropoffs_of l2.
Proof. apply filter_app. Qed.

Lemma elem_of_pickups_of (l : list Waypoint) (w : Waypoint) :
  w ∈ pickups_of l <-> wp_type w = "pickup" /\ w ∈ l.
Proof. unfold pickups_of. by rewrite list_elem_of_filter. Qed.

Lemma elem_of_dropoffs_of (l : list Waypoint) (w : Waypoint) :
  w ∈ dropoffs_of l <-> wp_type w = "dropoff" /\ w ∈ l.
Proof. unfold dropoffs_of. by rewrite list_elem_of_filter. Qed.

(** A passenger aboard after the replay has not been dropped off. *)
Lemma aboard_not_dropped (route : list Waypoint) (x : string) :
  NoDup (wp_passenger_id <$> pickups_of route) ->
  paired_prefix route ->
  x ∈ in_vehicle_after route ->
  forall d, d ∈ route -> wp_type d = "dropoff" -> wp_passenger_id d <> x.
Proof.
  induction route as [|w r IH] using rev_ind; intros Hnd Hpp Hx d Hd Hty.
  - by apply elem_of_nil in Hd.
  - rewrite pickups_of_app, fmap_app in Hnd.
    apply NoDup_app in Hnd as (Hnd & Hdisj & _).
    pose proof (paired_prefix_app_l _ _ Hpp) as Hpp'.
    rewrite in_vehicle_after_snoc in Hx. unfold board in Hx.
    apply elem_of_app in Hd as [Hd|Hd].
    + destruct (decide (wp_type w = "pickup")) as [Hw|Hw].
      * apply elem_of_union in Hx as [Hx|Hx]; [|by apply IH].
        apply elem_of_singleton in Hx as ->. intros Hid.
        (* the pickup of d's passenger is in r and w is a second one *)
        apply list_elem_of_lookup in Hd as [j Hj].
        destruct (Hpp' j d Hj Hty) as (i & p & _ & Hi & Hpty & Hpid).
        assert (p ∈ r) as Hp by (apply list_elem_of_lookup; eauto).
        apply (Hdisj (wp_passenger_id p)).
        -- apply list_elem_of_fmap_2. by apply elem_of_pickups_of.
        -- rewrite Hpid, Hid. apply list_elem_of_fmap_2.
           apply elem_of_pickups_of. split; [done | left].
      * apply elem_of_difference in Hx as [Hx _]. by apply IH.
    + apply list_elem_of_singleton in Hd as ->.
      destruct (decide (wp_type w = "pickup")) as [Hw|Hw]; [congruence|].
      apply elem_of_difference in Hx as [_ Hx].
      intros E. apply Hx. apply elem_of_singleton. done.
Qed.

(** A passenger picked up and not dropped off is aboard after the replay. *)
Lemma picked_aboard (route : list Waypoint) (p : Waypoint) :
  p ∈ route -> wp_type p = "pickup" ->
  (forall w, w ∈ route -> wp_type w <> "pickup" ->
             wp_passenger_id w <> wp_passenger_id p) ->
  wp_passenger_id p ∈ in_vehicle_after route.
Proof.
  induction route as [|w r IH] using rev_ind; intros Hp Hty Hno.
  - by apply elem_of_nil in Hp.
  - rewrite in_vehicle_after_snoc. unfold board.
    assert (forall w', w' ∈ r -> wp_type w' <> "pickup" ->
                       wp_passenger_id w' <> wp_passenger_id p) as Hno'.
    { intros w' Hw'. apply Hno. apply elem_of_app. by left. }
    destruct (decide (wp_type w = "pickup")) as [Hw|Hw].
    + apply elem_of_union. apply elem_of_app in Hp as [Hp|Hp].
      * right. by apply IH.
      * apply list_elem_of_singleton in Hp as ->. left.
        by apply elem_of_singleton.
    + apply elem_of_difference. apply elem_of_app in Hp as [Hp|Hp].
      * split; [by apply IH|]. intros E. apply elem_of_singleton in E.
        apply (Hno w); [|done|done]. apply elem_of_app. right. left.
      * apply list_elem_of_singleton in Hp as ->. done.
Qed.

Lemma paired_prefix_ordered (route : list Waypoint) :
  NoDup (wp_passenger_id <$> pickups_of route) ->
  paired_prefix route -> pickup_before_dropoff route.
Proof.
  intros Hnd Hpp i j p d Hi Hj Hp Hd Hid.
  destruct (Hpp j d Hj Hd) as (i' & p' & Hlt & Hi' & Hp' & Hid').
  assert (p' = p) as ->.
  { apply (NoDup_fmap_elem_inj wp_passenger_id (pickups_of route));
      [done| | |congruence].
    - apply elem_of_pickups_of. split; [done|].
      apply list_elem_of_lookup. eauto.
    - apply elem_of_pickups_of. split; [done|].
      apply list_elem_of_lookup. eauto. }
  assert (i' = i); [|lia].
  (* the same pickup cannot sit at two positions *)
  apply NoDup_fmap_1 in Hnd.
  assert (NoDup_at : forall (l : list Waypoint) a b, a <> b ->
            l !! a = Some p -> l !! b = Some p -> wp_type p = "pickup" ->
            ~ NoDup (pickups_of l)).
  { clear. intros l. induction l as [|w l IH]; intros a b Hab Ha Hb Hp Hnd.
    - done.
    - unfold pickups_of in *. rewrite filter_cons in Hnd.
      destruct a as [|a], b as [|b]; simpl in *.
      + done.
      + injection Ha as ->. rewrite decide_True in Hnd by done.
        apply NoDup_cons in Hnd as [Hn _]. apply Hn.
        apply list_elem_of_filter. split; [done|].
        apply list_elem_of_lookup. eauto.
      + injection Hb as ->. rewrite decide_True in Hnd by done.
        apply NoDup_cons in Hnd as [Hn _]. apply Hn.
        apply list_elem_of_filter. split; [done|].
        apply list_elem_of_lookup. eauto.
      + apply (IH a b); [lia|done..|].
        destruct (decide _); [by apply NoDup_cons in Hnd as [_ ?]|done]. }
  destruct (decide (i' = i)) as [|Hne]; [done|].
  by destruct (NoDup_at route i' i Hne Hi' Hi Hp).
Qed.

(** *** One pair per passenger *)

Lemma one_pair_per_passenger_perm (l l' : list Waypoint) :
  l ≡ₚ l' -> one_pair_per_passenger l -> one_pair_per_passenger l'.
Proof.
  intros Hperm (Hty & Hp & Hd & Hset).
  assert (pickups_of l ≡ₚ pickups_of l') as HP
    by (unfold pickups_of; by rewrite Hperm).
  assert (dropoffs_of l ≡ₚ dropoffs_of l') as HD
    by (unfold dropoffs_of; by rewrite Hperm).
  repeat split.
  - by rewrite <- Hperm.
  - by rewrite <- HP.
  - by rewrite <- HD.
  - rewrite <- (list_to_set_perm_L _ _ (fmap_Permutation _ _ _ HP)).
    rewrite <- (list_to_set_perm_L _ _ (fmap_Permutation _ _ _ HD)).
    done.
Qed.

Lemma typed_pickups (l : list Waypoint) :
  Forall (fun w => wp_type w = "pickup") l ->
  pickups_of l = l /\ dropoffs_of l = [].
Proof.
  unfold pickups_of, dropoffs_of.
  induction 1 as [|w l Hw _ [IH1 IH2]]; [done|].
  rewrite !filter_cons, IH1, IH2.
  repeat case_decide; done || congruence.
Qed.

Lemma typed_dropoffs (l : list Waypoint) :
  Forall (fun w => wp_type w = "dropoff") l ->
  pickups_of l = [] /\ dropoffs_of l = l.
Proof.
  unfold pickups_of, dropoffs_of.
  induction 1 as [|w l Hw _ [IH1 IH2]]; [done|].
  rewrite !filter_cons, IH1, IH2.
  repeat case_decide; done || congruence.
Qed.

Lemma pickups_dropoffs_perm (l : list Waypoint) :
  Forall (fun w => wp_type w = "pickup" \/ wp_type w = "dropoff") l ->
  pickups_of l ++ dropoffs_of l ≡ₚ l.
Proof.
  unfold pickups_of, dropoffs_of.
  induction 1 as [|w l [Hw|Hw] _ IH]; [done|..]; rewrite !filter_cons.
  - repeat case_decide; try congruence. simpl. by rewrite IH.
  - repeat case_decide; try congruence.
    rewrite <- Permutation_middle. by rewrite IH.
Qed.

Lemma pickups_of_typed (l : list Waypoint) :
  Forall (fun w => wp_type w = "pickup") (pickups_of l).
Proof. apply Forall_forall. intros w Hw. by apply elem_of_pickups_of in Hw as [? _]. Qed.

Lemma dropoffs_of_typed (l : list Waypoint) :
  Forall (fun w => wp_type w = "dropoff") (dropoffs_of l).
Proof. apply Forall_forall. intros w Hw. by apply elem_of_dropoffs_of in Hw as [? _]. Qed.

(** What one pair per passenger says of a split into route and remaining
    lists. *)
Lemma one_pair_split (ws route rp rd : list Waypoint) :
  one_pair_per_passenger ws ->
  route ++ rp ++ rd ≡ₚ ws ->
  Forall (fun w => wp_type w = "pickup") rp ->
  Forall (fun w => wp_type w = "dropoff") rd ->
  NoDup (wp_passenger_id <$> (pickups_of route ++ rp))
  /\ NoDup (wp_passenger_id <$> (dropoffs_of route ++ rd))
  /\ (list_to_set (wp_passenger_id <$> (pickups_of route ++ rp)) : gset string)
     = list_to_set (wp_passenger_id <$> (dropoffs_of route ++ rd))
  /\ Forall (fun w => wp_type w = "pickup" \/ wp_type w = "dropoff") route.
Proof.
  intros Hone Hperm Hrp Hrd. symmetry in Hperm.
  apply (one_pair_per_passenger_perm _ _ Hperm) in Hone.
  destruct Hone as (Hty & Hp & Hd & Hset).
  rewrite !pickups_of_app in Hp, Hset. rewrite !dropoffs_of_app in Hd, Hset.
  destruct (typed_pickups rp Hrp) as [Ep1 Ep2].
  destruct (typed_dropoffs rd Hrd) as [Ed1 Ed2].
  rewrite Ep1, Ed1 in Hp, Hset. rewrite Ep2, Ed2 in Hd, Hset.
  rewrite app_nil_r in Hp, Hset. simpl in Hd, Hset.
  repeat split; try done.
  by apply Forall_app in Hty as [? _].
Qed.

(** *** The loop keeps its invariant *)

Section Loop.

Variable geodesic : Q * Q -> Q * Q -> Q.
Variable constraints : Constraints.
Variable waypoints : list Waypoint.
Hypothesis one_pair : one_pair_per_passenger waypoints.

Abbreviation cap := (max_passengers_of constraints).

Lemma size_in_vehicle_bound (route : list Waypoint) :
  capacity_respected cap route ->
  (Z.of_nat (size (in_vehicle_after route)) <= cap)%Z.
Proof.
  intros H. specialize (H (length route)). by rewrite take_ge in H.
Qed.

Lemma capacity_respected_snoc (route : list Waypoint) (w : Waypoint) :
  capacity_respected cap route ->
  (Z.of_nat (size (board (in_vehicle_after route) w)) <= cap)%Z ->
  capacity_respected cap (route ++ [w]).
Proof.
  intros H Hw n. destruct (decide (n <= length route)%nat) as [Hle|Hgt].
  - rewrite take_app_le by done. apply H.
  - rewrite take_ge by (rewrite length_app; simpl; lia).
    by rewrite in_vehicle_after_snoc.
Qed.

(** A candidate that is a pickup was taken from the remaining pickups while
    the car had a free seat. *)
Lemma candidate_pickup (st : route_state) (next : Waypoint) :
  loop_inv waypoints cap st ->
  next ∈ candidates_of constraints st -> wp_type next = "pickup" ->
  next ∈ remaining_pickups st
  /\ (Z.of_nat (size (passenger_in_car st)) < cap)%Z.
Proof.
  intros Hinv Hin Hty. unfold candidates_of in Hin.
  assert (forall l, next ∈ filter (fun dp => wp_passenger_id dp ∈ passenger_in_car st)
                             (remaining_dropoffs st) -> l) as Hno.
  { intros l H. apply list_elem_of_filter in H as [_ H].
    pose proof (inv_dropoffs _ _ _ Hinv) as Hrd.
    rewrite Forall_forall in Hrd. specialize (Hrd _ H). congruence. }
  destruct (_ >=? _)%Z eqn:E.
  - by apply Hno.
  - apply elem_of_app in Hin as [Hin|Hin]; [|by apply Hno].
    split; [done|]. rewrite Z.geb_leb in E. by apply Z.leb_gt in E.
Qed.

(** A candidate that is not a pickup is the dropoff of a passenger in the
    car. *)
Lemma candidate_dropoff (st : route_state) (next : Waypoint) :
  loop_inv waypoints cap st ->
  next ∈ candidates_of constraints st -> wp_type next <> "pickup" ->
  next ∈ remaining_dropoffs st
  /\ wp_passenger_id next ∈ passenger_in_car st.
Proof.
  intros Hinv Hin Hty. unfold candidates_of in Hin.
  assert (next ∈ filter (fun dp => wp_passenger_id dp ∈ passenger_in_car st)
                 (remaining_dropoffs st)) as H.
  { destruct (_ >=? _)%Z; [done|].
    apply elem_of_app in Hin as [Hin|Hin]; [|done].
    pose proof (inv_pickups _ _ _ Hinv) as Hrp.
    rewrite Forall_forall in Hrp. by specialize (Hrp _ Hin). }
  apply list_elem_of_filter in H as [? ?]. done.
Qed.

Lemma step_pickup (st : route_state) (next : Waypoint) :
  loop_inv waypoints cap st ->
  next ∈ candidates_of constraints st -> wp_type next = "pickup" ->
  exists rest,
    list_remove next (remaining_pickups st) = Returned rest
    /\ length (remaining_pickups st) = S (length rest)
    /\ loop_inv waypoints cap
         (mkRouteState (optimized_route st ++ [next]) next rest
            (remaining_dropoffs st)
            ({[wp_passenger_id next]} ∪ passenger_in_car st)).
Proof using one_pair.
  intros Hinv Hin Hty.
  destruct (candidate_pickup st next Hinv Hin Hty) as [Hrp Hfree].
  destruct st as [route cur rp rd car].
  destruct Hinv as [Hperm Hp Hd Hcar Hord Hcap]. simpl in *.
  destruct (one_pair_split _ _ _ _ one_pair Hperm Hp Hd)
    as (NDp & NDd & Hset & Htyped).
  rewrite fmap_app in NDp. apply NoDup_app in NDp as (_ & _ & NDrp).
  destruct (list_remove_elem next rp Hrp) as (rest & Hrem & Hperm_rp).
  { intros y Hy E. by apply (NoDup_fmap_elem_inj wp_passenger_id rp). }
  exists rest. split; [done|]. split.
  { by rewrite (Permutation_length Hperm_rp). }
  constructor; simpl.
  - rewrite <- Hperm, Hperm_rp, <- app_assoc. done.
  - rewrite Hperm_rp in Hp. by apply Forall_cons in Hp as [_ ?].
  - done.
  - rewrite in_vehicle_after_snoc. unfold board.
    rewrite decide_True by done. by rewrite Hcar.
  - apply paired_prefix_snoc; [done|]. congruence.
  - intros H1. apply capacity_respected_snoc; [by apply Hcap|].
    unfold board. rewrite decide_True by done. rewrite <- Hcar.
    rewrite size_union_alt, size_singleton.
    assert (car ∖ {[wp_passenger_id next]} ⊆ car) as Hs
      by apply subseteq_difference_l, reflexivity.
    apply subseteq_size in Hs. lia.
Qed.

Lemma step_dropoff (st : route_state) (next : Waypoint) :
  loop_inv waypoints cap st ->
  next ∈ candidates_of constraints st -> wp_type next <> "pickup" ->
  exists rest,
    list_remove next (remaining_dropoffs st) = Returned rest
    /\ length (remaining_dropoffs st) = S (length rest)
    /\ loop_inv waypoints cap
         (mkRouteState (optimized_route st ++ [next]) next
            (remaining_pickups st) rest
            (passenger_in_car st ∖ {[wp_passenger_id next]})).
Proof using one_pair.
  intros Hinv Hin Hty.
  destruct (candidate_dropoff st next Hinv Hin Hty) as [Hrd Haboard].
  destruct st as [route cur rp rd car].
  destruct Hinv as [Hperm Hp Hd Hcar Hord Hcap]. simpl in *.
  destruct (one_pair_split _ _ _ _ one_pair Hperm Hp Hd)
    as (NDp & NDd & Hset & Htyped).
  rewrite fmap_app in NDd. apply NoDup_app in NDd as (_ & _ & NDrd).
  destruct (list_remove_elem next rd Hrd) as (rest & Hrem & Hperm_rd).
  { intros y Hy E. by apply (NoDup_fmap_elem_inj wp_passenger_id rd). }
  exists rest. split; [done|]. split.
  { by rewrite (Permutation_length Hperm_rd). }
  constructor; simpl.
  - rewrite <- Hperm, Hperm_rd, <- app_assoc. simpl.
    apply Permutation_app_head. apply Permutation_middle.
  - done.
  - rewrite Hperm_rd in Hd. by apply Forall_cons in Hd as [_ ?].
  - rewrite in_vehicle_after_snoc. unfold board.
    rewrite decide_False by done. by rewrite Hcar.
  - apply paired_prefix_snoc; [done|]. intros _.
    apply aboard_picked. by rewrite <- Hcar.
  - intros H1. apply capacity_respected_snoc; [by apply Hcap|].
    unfold board. rewrite decide_False by done.
    pose proof (size_in_vehicle_bound route (Hcap H1)) as Hb.
    assert (in_vehicle_after route ∖ {[wp_passenger_id next]}
            ⊆ in_vehicle_after route) as Hs
      by apply subseteq_difference_l, reflexivity.
    apply subseteq_size in Hs. lia.
Qed.

Lemma paired_prefix_app (r r' : list Waypoint) :
  paired_prefix r ->
  (forall d, d ∈ r' -> wp_type d = "dropoff" ->
     exists p, p ∈ r /\ wp_type p = "pickup"
               /\ wp_passenger_id p = wp_passenger_id d) ->
  paired_prefix (r ++ r').
Proof.
  intros H Hr' j d Hj Hd.
  destruct (decide (j < length r)%nat) as [Hlt|Hge].
  - rewrite lookup_app_l in Hj by done.
    destruct (H j d Hj Hd) as (i & p & Hij & Hi & Hp).
    exists i, p. split; [done|]. split; [|done].
    rewrite lookup_app_l; [done|lia].
  - rewrite lookup_app_r in Hj by lia.
    destruct (Hr' d) as (p & Hp & Hty & Hid); [|done|].
    { apply list_elem_of_lookup. eauto. }
    apply list_elem_of_lookup in Hp as [i Hi].
    pose proof (lookup_lt_Some _ _ _ Hi) as Hlt.
    exists i, p. split; [lia|]. split; [|done].
    by rewrite lookup_app_l.
Qed.

Lemma paired_prefix_pickups (l : list Waypoint) :
  Forall (fun w => wp_type w = "pickup") l -> paired_prefix l.
Proof.
  intros H j d Hj Hd. rewrite Forall_forall in H.
  assert (wp_type d = "pickup"); [|congruence].
  apply H. apply list_elem_of_lookup. eauto.
Qed.

(** Every remaining dropoff has its pickup in the route or among the
    remaining pickups. *)
Lemma dropoff_has_pickup (route rp rd : list Waypoint) (d : Waypoint) :
  route ++ rp ++ rd ≡ₚ waypoints ->
  Forall (fun w => wp_type w = "pickup") rp ->
  Forall (fun w => wp_type w = "dropoff") rd ->
  d ∈ rd ->
  exists p, p ∈ route ++ rp /\ wp_type p = "pickup"
            /\ wp_passenger_id p = wp_passenger_id d.
Proof using one_pair.
  intros Hperm Hp Hd Hin.
  destruct (one_pair_split _ _ _ _ one_pair Hperm Hp Hd)
    as (_ & _ & Hset & _).
  assert (wp_passenger_id d
          ∈ (list_to_set (wp_passenger_id <$> pickups_of route ++ rp)
             : gset string)) as Hx.
  { rewrite Hset. apply elem_of_list_to_set. apply list_elem_of_fmap_2.
    apply elem_of_app. by right. }
  apply elem_of_list_to_set, list_elem_of_fmap in Hx as (p & Hid & Hx).
  exists p. apply elem_of_app in Hx as [Hx|Hx].
  - apply elem_of_pickups_of in Hx as [? ?].
    split; [apply elem_of_app; by left|done].
  - rewrite Forall_forall in Hp.
    split; [apply elem_of_app; by right|]. split; [by apply Hp|done].
Qed.

(** The order of the defensive fallback. *)
Lemma fallback_ordered (st : route_state) :
  loop_inv waypoints cap st ->
  paired_prefix (optimized_route st
                 ++ remaining_pickups st ++ remaining_dropoffs st).
Proof using one_pair.
  intros [Hperm Hp Hd Hcar Hord Hcap].
  rewrite app_assoc. apply paired_prefix_app.
  - apply paired_prefix_app; [done|]. intros d Hin Hty.
    rewrite Forall_forall in Hp. specialize (Hp _ Hin). congruence.
  - intros d Hin _. by apply (dropoff_has_pickup _ _ (remaining_dropoffs st)).
Qed.

(** With room for at least one passenger the scan always finds a
    candidate: the fallback branch is not taken. *)
Lemma candidates_nonempty (st : route_state) :
  loop_inv waypoints cap st -> (1 <= cap)%Z ->
  remaining_pickups st <> [] \/ remaining_dropoffs st <> [] ->
  candidates_of constraints st <> [].
Proof using one_pair.
  intros Hinv H1 Hne Hcand.
  destruct st as [route cur rp rd car].
  pose proof Hinv as [Hperm Hp Hd Hcar Hord Hcap]. simpl in *.
  destruct (one_pair_split _ _ _ _ one_pair Hperm Hp Hd)
    as (NDp & NDd & Hset & Htyped).
  unfold candidates_of in Hcand. simpl in Hcand.
  (* no remaining dropoff belongs to a passenger in the car *)
  assert (forall d, d ∈ rd -> wp_passenger_id d ∉ car) as Hnone.
  { intros d Hin Hx.
    assert (d ∈ filter (fun dp => wp_passenger_id dp ∈ car) rd) as Hf
      by (by apply list_elem_of_filter).
    destruct (_ >=? _)%Z.
    - rewrite Hcand in Hf. by apply elem_of_nil in Hf.
    - apply app_eq_nil in Hcand as [_ Hcand].
      rewrite Hcand in Hf. by apply elem_of_nil in Hf. }
  (* hence the car is empty *)
  assert (car = ∅) as Hempty.
  { apply set_eq. intros x. split; [|set_solver]. intros Hx. exfalso.
    rewrite Hcar in Hx.
    destruct (aboard_picked _ _ Hx) as (p & Hpin & Hpty & Hpid).
    assert (x ∈ (list_to_set (wp_passenger_id <$> dropoffs_of route ++ rd)
                 : gset string)) as Hx'.
    { rewrite <- Hset. apply elem_of_list_to_set. rewrite <- Hpid.
      apply list_elem_of_fmap_2. apply elem_of_app. left.
      by apply elem_of_pickups_of. }
    apply elem_of_list_to_set, list_elem_of_fmap in Hx' as (d & Hid & Hd').
    apply elem_of_app in Hd' as [Hd'|Hd'].
    - apply elem_of_dropoffs_of in Hd' as [Hdty Hdin].
      rewrite fmap_app in NDp. apply NoDup_app in NDp as (NDp & _ & _).
      by apply (aboard_not_dropped route x NDp Hord Hx d).
    - apply (Hnone d Hd'). by rewrite Hcar, <- Hid. }
  rewrite Hempty, size_empty in Hcand.
  destruct (Z.of_nat 0 >=? cap)%Z eqn:E.
  { apply Z.geb_le in E. lia. }
  apply app_eq_nil in Hcand as [-> _].
  destruct Hne as [?|Hne]; [done|].
  destruct rd as [|d rd']; [done|].
  destruct (dropoff_has_pickup route [] (d :: rd') d)
    as (p & Hpin & Hpty & Hpid); [done..|left|].
  rewrite app_nil_r in Hpin.
  assert (wp_passenger_id p ∈ in_vehicle_after route) as Hx.
  { apply picked_aboard; [done..|]. intros w Hw Hwty E'.
    rewrite Forall_forall in Htyped.
    destruct (Htyped _ Hw) as [?|Hwd]; [done|].
    rewrite fmap_app in NDd. apply NoDup_app in NDd as (_ & Hdisj & _).
    apply (Hdisj (wp_passenger_id w)).
    - apply list_elem_of_fmap_2. by apply elem_of_dropoffs_of.
    - rewrite E', Hpid. apply list_elem_of_fmap_2. left. }
  rewrite <- Hcar, Hempty in Hx. by apply not_elem_of_empty in Hx.
Qed.

Lemma route_loop_unfold (fuel : nat) (st : route_state) :
  remaining_pickups st <> [] \/ remaining_dropoffs st <> [] ->
  route_loop geodesic (S fuel) constraints st
  = match nearest geodesic (current_location st)
            (candidates_of constraints st) with
    | Some next_waypoint =>
        let route := optimized_route st ++ [next_waypoint] in
        if decide (wp_type next_waypoint = "pickup") then
          rest ← list_remove next_waypoint (remaining_pickups st);
          route_loop geodesic fuel constraints
            (mkRouteState route next_waypoint rest (remaining_dropoffs st)
               ({[wp_passenger_id next_waypoint]} ∪ passenger_in_car st))
        else
          rest ← list_remove next_waypoint (remaining_dropoffs st);
          route_loop geodesic fuel constraints
            (mkRouteState route next_waypoint (remaining_pickups st) rest
               (passenger_in_car st ∖ {[wp_passenger_id next_waypoint]}))
    | None =>
        mret (optimized_route st
              ++ (remaining_pickups st ++ remaining_dropoffs st))
    end.
Proof.
  intros Hne. simpl.
  destruct (remaining_pickups st), (remaining_dropoffs st); try done.
  by destruct Hne.
Qed.

(** The loop returns within [fuel] iterations, with a permutation of the
    waypoints that is ordered and, when at least one seat is allowed,
    within capacity. *)
Lemma route_loop_spec (fuel : nat) (st : route_state) :
  loop_inv waypoints cap st ->
  (length (remaining_pickups st) + length (remaining_dropoffs st) <= fuel)%nat ->
  exists out,
    route_loop geodesic fuel constraints st = Returned out
    /\ out ≡ₚ waypoints
    /\ paired_prefix out
    /\ ((1 <= cap)%Z -> capacity_respected cap out).
Proof using one_pair.
  revert st. induction fuel as [|fuel IH]; intros st Hinv Hfuel.
  - destruct st as [route cur rp rd car].
    destruct Hinv as [Hperm Hp Hd Hcar Hord Hcap]. simpl in *.
    destruct rp, rd; simpl in Hfuel; try lia.
    exists route. simpl. rewrite app_nil_r in Hperm. done.
  - destruct (decide (remaining_pickups st = [] /\ remaining_dropoffs st = []))
      as [[Erp Erd]|Hne].
    + destruct st as [route cur rp rd car].
      destruct Hinv as [Hperm Hp Hd Hcar Hord Hcap]. simpl in *. subst.
      exists route. simpl. rewrite app_nil_r in Hperm. done.
    + assert (remaining_pickups st <> [] \/ remaining_dropoffs st <> [])
        as Hne'.
      { destruct (remaining_pickups st); [|by left].
        destruct (remaining_dropoffs st); [|by right]. by destruct Hne. }
      rewrite route_loop_unfold by done.
      destruct (nearest _ _ _) as [next|] eqn:En.
      * apply nearest_elem in En. simpl.
        destruct (decide (wp_type next = "pickup")) as [Hty|Hty].
        -- destruct (step_pickup st next Hinv En Hty)
             as (rest & -> & Hlen & Hinv').
           simpl. apply IH; [done|]. simpl. lia.
        -- destruct (step_dropoff st next Hinv En Hty)
             as (rest & -> & Hlen & Hinv').
           simpl. apply IH; [done|]. simpl. lia.
      * eexists. split; [done|]. split; [apply Hinv|].
        split; [by apply fallback_ordered|].
        intros H1. exfalso.
        apply (candidates_nonempty st Hinv H1 Hne').
        destruct (candidates_of constraints st) as [|c l] eqn:Ec; [done|].
        destruct (nearest_is_Some geodesic (current_location st) (c :: l))
          as [w Hw]; [done|]. congruence.
Qed.

End Loop.

(** *** Termination *)

Lemma list_remove_length (x : Waypoint) (l l' : list Waypoint) :
  list_remove x l = Returned l' -> length l = S (length l').
Proof.
  revert l'. induction l as [|y l IH]; intros l'; simpl; [done|].
  destruct (Waypoint_eqb y x).
  - by intros [= ->].
  - destruct (list_remove x l) as [l''| |]; simpl; try done.
    intros [= <-]. simpl. by rewrite (IH l'').
Qed.

Lemma list_remove_fuel (x : Waypoint) (l : list Waypoint) :
  list_remove x l <> OutOfFuel.
Proof.
  induction l as [|y l IH]; simpl; [done|].
  destruct (Waypoint_eqb y x); [done|].
  by destruct (list_remove x l).
Qed.

(** The fuel handed to the loop is never exhausted, whatever the lists. *)
Lemma route_loop_terminates geodesic constraints (fuel : nat)
    (st : route_state) :
  (length (remaining_pickups st) + length (remaining_dropoffs st) <= fuel)%nat ->
  route_loop geodesic fuel constraints st <> OutOfFuel.
Proof.
  revert st. induction fuel as [|fuel IH]; intros st Hfuel.
  - destruct st as [route cur rp rd car]. simpl in *.
    destruct rp, rd; simpl in Hfuel; try lia. done.
  - destruct (decide (remaining_pickups st = [] /\ remaining_dropoffs st = []))
      as [[Erp Erd]|Hne].
    + simpl. by rewrite Erp, Erd.
    + rewrite route_loop_unfold.
      2:{ destruct (remaining_pickups st); [|by left].
          destruct (remaining_dropoffs st); [|by right]. by destruct Hne. }
      destruct (nearest _ _ _) as [next|]; [|done]. simpl.
      case_decide.
      * destruct (list_remove next (remaining_pickups st)) as [rest| |] eqn:E;
          simpl; [|done|by apply list_remove_fuel in E].
        apply IH. simpl. apply list_remove_length in E. lia.
      * destruct (list_remove next (remaining_dropoffs st)) as [rest| |] eqn:E;
          simpl; [|done|by apply list_remove_fuel in E].
        apply IH. simpl. apply list_remove_length in E. lia.
Qed.

Lemma multi_passenger_returns geodesic (pickups dropoffs : list Waypoint)
    constraints :
  exists out,
    _optimize_multi_passenger_route geodesic pickups dropoffs constraints
    = Returned out.
Proof.
  unfold _optimize_multi_passenger_route.
  destruct (initial_state pickups dropoffs) as [st| |] eqn:Est; simpl.
  - pose proof (route_loop_terminates geodesic constraints
                  (length pickups + length dropoffs) st) as Hterm.
    destruct (route_loop _ _ _ _) as [out| |]; simpl; [by eexists..|].
    exfalso. apply Hterm; [|done].
    unfold initial_state, mret, outcome_ret in Est.
    destruct pickups as [|p P]; [destruct dropoffs as [|d D]|];
      try done; injection Est as <-; simpl; lia.
  - by eexists.
  - by destruct pickups as [|p P]; [destruct dropoffs as [|d D]|].
Qed.

(** *** The sequencer as a whole *)

Lemma efficiency_score_returns geodesic (optimized original : list Waypoint) :
  exists score,
    _calculate_efficiency_score geodesic optimized original = Returned score.
Proof.
  unfold _calculate_efficiency_score, py_div.
  destruct (Qeq_bool _ 0); [by eexists|].
  destruct (Qeq_bool _ 0); by eexists.
Qed.

Lemma optimized_waypoints_returns geodesic (waypoints : list Waypoint)
    constraints :
  exists out,
    optimized_waypoints_of geodesic waypoints constraints = Returned out.
Proof.
  unfold optimized_waypoints_of. destruct (_ && _); [by eexists|].
  apply multi_passenger_returns.
Qed.

Lemma genetic_algorithm_returns geodesic waypoints constraints out :
  optimized_waypoints_of geodesic waypoints constraints = Returned out ->
  exists r,
    _optimize_with_genetic_algorithm geodesic waypoints constraints
    = Returned r
    /\ or_waypoints r = out.
Proof.
  intros E. unfold _optimize_with_genetic_algorithm. rewrite E. simpl.
  destruct (efficiency_score_returns geodesic out waypoints) as [s ->].
  by eexists.
Qed.

Section Sequencer.

Variable geodesic : Q * Q -> Q * Q -> Q.
Variable constraints : Constraints.
Variable waypoints : list Waypoint.
Hypothesis one_pair : one_pair_per_passenger waypoints.

Lemma multi_passenger_spec :
  exists out,
    _optimize_multi_passenger_route geodesic (pickups_of waypoints)
      (dropoffs_of waypoints) constraints = Returned out
    /\ out ≡ₚ waypoints
    /\ paired_prefix out
    /\ ((1 <= max_passengers_of constraints)%Z ->
        capacity_respected (max_passengers_of constraints) out).
Proof using one_pair.
  pose proof one_pair as (Hty & NDp & NDd & Hset).
  pose proof (pickups_dropoffs_perm _ Hty) as Hperm.
  pose proof (pickups_of_typed waypoints) as HP.
  pose proof (dropoffs_of_typed waypoints) as HD.
  unfold _optimize_multi_passenger_route.
  destruct (pickups_of waypoints) as [|first rest] eqn:EP.
  - (* no pickup: then no dropoff either, and the index error is caught *)
    destruct (dropoffs_of waypoints) as [|d D] eqn:ED.
    + exists []. simpl. split; [done|]. split; [done|].
      split; [by intros j d Hj|]. intros H1 n.
      rewrite take_nil, in_vehicle_after_nil, size_empty. lia.
    + exfalso. simpl in Hset.
      assert (wp_passenger_id d ∈ (∅ : gset string)) as H
        by (rewrite Hset; set_solver).
      by apply not_elem_of_empty in H.
  - destruct (route_loop_spec geodesic constraints waypoints one_pair
                (length (first :: rest) + length (dropoffs_of waypoints))
                (mkRouteState [first] first rest (dropoffs_of waypoints)
                   {[wp_passenger_id first]}))
      as (out & E & Hout).
    + apply Forall_cons in HP as [Hfirst Hrest].
      constructor; simpl; try done.
      * by rewrite in_vehicle_after_pickup.
      * apply paired_prefix_pickups. by constructor.
      * intros H1. by apply capacity_respected_pickup.
    + simpl. lia.
    + exists out. split; [|done].
      unfold initial_state, mbind, outcome_bind, mret, outcome_ret.
      by rewrite E.
Qed.

Lemma optimized_waypoints_spec :
  exists out,
    optimized_waypoints_of geodesic waypoints constraints = Returned out
    /\ out ≡ₚ waypoints
    /\ paired_prefix out
    /\ ((1 <= max_passengers_of constraints)%Z ->
        capacity_respected (max_passengers_of constraints) out).
Proof using one_pair.
  unfold optimized_waypoints_of.
  destruct ((length (pickups_of waypoints) =? 1)
            && (length (dropoffs_of waypoints) =? 1))%nat eqn:E;
    [|apply multi_passenger_spec].
  apply andb_true_iff in E as [EP ED].
  apply Nat.eqb_eq in EP, ED.
  pose proof one_pair as (Hty & NDp & NDd & Hset).
  pose proof (pickups_dropoffs_perm _ Hty) as Hperm.
  pose proof (pickups_of_typed waypoints) as HP.
  pose proof (dropoffs_of_typed waypoints) as HD.
  destruct (pickups_of waypoints) as [|p [|? ?]]; try done.
  destruct (dropoffs_of waypoints) as [|d [|? ?]]; try done.
  apply Forall_cons in HP as [Hp _]. apply Forall_cons in HD as [Hd _].
  exists [p; d]. split; [done|]. split; [done|]. split.
  - apply (paired_prefix_app [p] [d]).
    + apply paired_prefix_pickups. by constructor.
    + intros d' Hd' _. apply list_elem_of_singleton in Hd' as ->.
      exists p. split; [left|]. split; [done|].
      assert (wp_passenger_id d
              ∈ (list_to_set (wp_passenger_id <$> [p]) : gset string)) as H.
      { rewrite Hset. apply elem_of_list_to_set. left. }
      apply elem_of_list_to_set in H. simpl in H.
      by apply list_elem_of_singleton in H.
  - intros H1. apply (capacity_respected_snoc constraints [p] d).
    + by apply capacity_respected_pickup.
    + rewrite in_vehicle_after_pickup by done. unfold board.
      rewrite decide_False by congruence.
      assert ({[wp_passenger_id p]} ∖ {[wp_passenger_id d]}
              ⊆ ({[wp_passenger_id p]} : gset string)) as Hs
        by apply subseteq_difference_l, reflexivity.
      apply subseteq_size in Hs. rewrite size_singleton in Hs. lia.
Qed.

(** C2: with one pickup and one dropoff per passenger, the sequencer
    returns a permutation of its input in which every passenger's pickup
    comes strictly before that passenger's dropoff. *)
Theorem sequencer_permutation_order :
  exists r,
    _optimize_with_genetic_algorithm geodesic waypoints constraints
    = Returned r
    /\ or_waypoints r ≡ₚ waypoints
    /\ pickup_before_dropoff (or_waypoints r).
Proof using one_pair.
  destruct optimized_waypoints_spec as (out & E & Hperm & Hord & _).
  destruct (genetic_algorithm_returns _ _ _ _ E) as (r & Er & <-).
  exists r. split; [done|]. split; [done|].
  apply paired_prefix_ordered; [|done].
  symmetry in Hperm.
  by destruct (one_pair_per_passenger_perm _ _ Hperm one_pair) as (_ & ? & _).
Qed.

(** C3: with room for at least one passenger and one pickup/dropoff pair
    per passenger, replaying the sequencer's output never has more than
    [max_passengers] passengers in the vehicle. *)
Theorem sequencer_capacity :
  (1 <= max_passengers_of constraints)%Z ->
  exists r,
    _optimize_with_genetic_algorithm geodesic waypoints constraints
    = Returned r
    /\ capacity_respected (max_passengers_of constraints) (or_waypoints r).
Proof using one_pair.
  intros H1.
  destruct optimized_waypoints_spec as (out & E & _ & _ & Hcap).
  destruct (genetic_algorithm_returns _ _ _ _ E) as (r & Er & <-).
  exists r. split; [done|]. by apply Hcap.
Qed.

End Sequencer.

Lemma sequencer_permutation_order_witness :
  exists r,
    _optimize_with_genetic_algorithm taxicab two_passengers no_constraints
    = Returned r
    /\ or_waypoints r ≡ₚ two_passengers
    /\ pickup_before_dropoff (or_waypoints r).
Proof.
  apply (sequencer_permutation_order taxicab no_constraints two_passengers).
  apply (bool_decide_unpack _). by vm_compute.
Defined.

Lemma sequencer_capacity_witness :
  exists r,
    _optimize_with_genetic_algorithm taxicab two_passengers
      (mkConstraints (Some 1%Z)) = Returned r
    /\ capacity_respected 1 (or_waypoints r).
Proof.
  apply (sequencer_capacity taxicab (mkConstraints (Some 1%Z)) two_passengers).
  - apply (bool_decide_unpack _). by vm_compute.
  - by vm_compute.
Defined.

(** *** An unpaired dropoff *)

Lemma Waypoint_eqb_other_passenger (a b : Waypoint) :
  wp_passenger_id a <> wp_passenger_id b -> Waypoint_eqb a b = false.
Proof.
  intros Hne. apply not_true_is_false. intros E.
  by apply Waypoint_eqb_passenger in E.
Qed.

(** C5 (as amended): for one pickup and two dropoffs of different
    passengers, one of whom was never picked up, the sequencer returns
    without error: the pickup first, then its passenger's dropoff, then the
    unpaired dropoff, which the fallback branch of the loop appends. *)
Theorem unpaired_dropoff_appended geodesic constraints
    (waypoints : list Waypoint) (p da db : Waypoint) :
  waypoints ≡ₚ [p; da; db] ->
  wp_type p = "pickup" -> wp_type da = "dropoff" -> wp_type db = "dropoff" ->
  wp_passenger_id da = wp_passenger_id p ->
  wp_passenger_id db <> wp_passenger_id p ->
  exists r,
    _optimize_with_genetic_algorithm geodesic waypoints constraints
    = Returned r
    /\ or_waypoints r = [p; da; db].
Proof.
  intros Hperm Hp Hda Hdb Ha Hb.
  apply genetic_algorithm_returns.
  assert (pickups_of waypoints = [p]) as EP.
  { apply Permutation_singleton_r. unfold pickups_of. rewrite Hperm.
    rewrite !filter_cons, filter_nil.
    repeat case_decide; done || congruence. }
  assert (dropoffs_of waypoints = [da; db] \/ dropoffs_of waypoints = [db; da])
    as ED.
  { apply Permutation_length_2_inv. unfold dropoffs_of. rewrite Hperm.
    rewrite !filter_cons, filter_nil.
    repeat case_decide; done || congruence. }
  unfold optimized_waypoints_of. rewrite EP.
  set (D := dropoffs_of waypoints) in *.
  assert (length D = 2%nat) as HlenD by (by destruct ED as [->| ->]).
  rewrite HlenD. simpl andb. cbv iota.
  unfold _optimize_multi_passenger_route, initial_state.
  unfold mbind at 1, outcome_bind at 1, mret at 1, outcome_ret at 1.
  assert (D <> []) as HD by (by destruct ED as [->| ->]).
  (* first iteration: the dropoff of the passenger in the car *)
  rewrite route_loop_unfold by (by right). simpl.
  assert (filter (fun dp => wp_passenger_id dp ∈ ({[wp_passenger_id p]} : gset string)) D
          = [da]) as Eavail.
  { destruct ED as [->| ->]; rewrite !filter_cons, filter_nil;
      repeat case_decide; try done; set_solver. }
  assert (candidates_of constraints
            (mkRouteState [p] p [] D {[wp_passenger_id p]}) = [da]) as ->.
  { unfold candidates_of. simpl. rewrite Eavail. by destruct (_ >=? _)%Z. }
  change (nearest geodesic p [da]) with (Some da). cbv beta iota zeta.
  rewrite decide_False by congruence.
  assert (list_remove da D = Returned [db]) as ->.
  { destruct ED as [->| ->]; simpl.
    - by rewrite Waypoint_eqb_refl.
    - rewrite Waypoint_eqb_other_passenger by congruence.
      by rewrite Waypoint_eqb_refl. }
  unfold mbind at 1, outcome_bind at 1. rewrite HlenD.
  (* second iteration: no candidate, the fallback appends the rest *)
  rewrite route_loop_unfold by (by right). simpl.
  assert (candidates_of constraints
            (mkRouteState [p; da] da [] [db]
               ({[wp_passenger_id p]} ∖ {[wp_passenger_id da]})) = []) as ->.
  { unfold candidates_of. simpl. rewrite filter_cons, filter_nil.
    rewrite decide_False; [by destruct (_ >=? _)%Z|].
    intros Hin. apply elem_of_difference in Hin as [Hin _].
    by apply elem_of_singleton in Hin. }
  done.
Qed.

Lemma unpaired_dropoff_appended_witness :
  exists r,
    _optimize_with_genetic_algorithm taxicab scenario_c no_constraints
    = Returned r
    /\ or_waypoints r
       = [wp "p1" "pickup" 0 0 "a"; wp "d1" "dropoff" 5 0 "a";
          wp "d2" "dropoff" 2 0 "b"].
Proof.
  apply (unpaired_dropoff_appended taxicab no_constraints scenario_c);
    by vm_compute.
Defined.

(** C5, as stated, fails on scenario C: the sequencer returns all three
    waypoints and raises nothing. *)
Lemma scenario_c_no_error :
  optimized_waypoints_of taxicab scenario_c no_constraints
  = Returned scenario_c
  /\ ~ (exists e, optimized_waypoints_of taxicab scenario_c no_constraints
                 = Raised e).
Proof.
  assert (optimized_waypoints_of taxicab scenario_c no_constraints
          = Returned scenario_c) as E by (by vm_compute).
  split; [done|]. intros [e He]. congruence.
Qed.

(** ** The per-passenger breakdown *)

Lemma group_by_passenger_snoc (l : list Waypoint) (w : Waypoint) :
  group_by_passenger (l ++ [w]) = group_step (group_by_passenger l) w.
Proof. unfold group_by_passenger. by rewrite fold_left_app. Qed.

Lemma group_pickup (ws : list Waypoint) (p : Waypoint) :
  NoDup (wp_passenger_id <$> pickups_of ws) ->
  p ∈ ws -> wp_type p = "pickup" ->
  exists e, group_by_passenger ws !! wp_passenger_id p = Some e
            /\ pw_pickup e = Some p.
Proof.
  induction ws as [|w l IH] using rev_ind; intros Hnd Hin Hp.
  - by apply elem_of_nil in Hin.
  - rewrite pickups_of_app, fmap_app in Hnd.
    apply NoDup_app in Hnd as (Hnd & Hdisj & _).
    rewrite group_by_passenger_snoc. unfold group_step.
    apply elem_of_app in Hin as [Hin|Hin].
    + destruct (IH Hnd Hin Hp) as (e & He & Hpe).
      destruct (decide (wp_passenger_id w = wp_passenger_id p)) as [E|E].
      * rewrite E, lookup_insert_eq, He. simpl. eexists. split; [done|].
        case_decide as Hw; simpl; [|done]. exfalso.
        apply (Hdisj (wp_passenger_id p)).
        -- apply list_elem_of_fmap_2. by apply elem_of_pickups_of.
        -- rewrite <- E. apply list_elem_of_fmap_2.
           apply elem_of_pickups_of. split; [done | left].
      * rewrite lookup_insert_ne by done. eauto.
    + apply list_elem_of_singleton in Hin as ->.
      rewrite lookup_insert_eq. eexists. split; [done|].
      by rewrite decide_True.
Qed.

Lemma group_dropoff (ws : list Waypoint) (d : Waypoint) :
  Forall (fun w => wp_type w = "pickup" \/ wp_type w = "dropoff") ws ->
  NoDup (wp_passenger_id <$> dropoffs_of ws) ->
  d ∈ ws -> wp_type d = "dropoff" ->
  exists e, group_by_passenger ws !! wp_passenger_id d = Some e
            /\ pw_dropoff e = Some d.
Proof.
  induction ws as [|w l IH] using rev_ind; intros Hty Hnd Hin Hd.
  - by apply elem_of_nil in Hin.
  - rewrite dropoffs_of_app, fmap_app in Hnd.
    apply NoDup_app in Hnd as (Hnd & Hdisj & _).
    apply Forall_app in Hty as [Hty Hw]. rewrite Forall_singleton in Hw.
    rewrite group_by_passenger_snoc. unfold group_step.
    apply elem_of_app in Hin as [Hin|Hin].
    + destruct (IH Hty Hnd Hin Hd) as (e & He & Hde).
      destruct (decide (wp_passenger_id w = wp_passenger_id d)) as [E|E].
      * rewrite E, lookup_insert_eq, He. simpl. eexists. split; [done|].
        case_decide as Hw'; simpl; [done|]. exfalso.
        destruct Hw as [?|Hw]; [done|].
        apply (Hdisj (wp_passenger_id d)).
        -- apply list_elem_of_fmap_2. by apply elem_of_dropoffs_of.
        -- rewrite <- E. apply list_elem_of_fmap_2.
           apply elem_of_dropoffs_of. split; [done | left].
      * rewrite lookup_insert_ne by done. eauto.
    + apply list_elem_of_singleton in Hin as ->.
      rewrite lookup_insert_eq. eexists. split; [done|].
      rewrite decide_False by congruence. done.
Qed.

Lemma index_of_id_absent (id : string) (route : list Waypoint) :
  (forall w, w ∈ route -> wp_id w <> id) -> index_of_id id route = (-1)%Z.
Proof.
  induction route as [|w route IH]; intros H; simpl; [done|].
  rewrite decide_False by (apply H; left).
  rewrite IH by (intros w' Hw'; apply H; by right). done.
Qed.

(** C4 (as amended): a passenger with a pickup and a dropoff among the
    waypoints always gets a segment, and no error is raised; when the
    pickup (the dropoff) is absent from the sequenced route, its order is 0
    and its ETA is 0 in that segment. *)
Theorem absent_waypoint_zeroed geodesic (optimized_route : OptimizedRoute)
    (waypoints : list Waypoint) (p d : Waypoint) :
  one_pair_per_passenger waypoints ->
  p ∈ waypoints -> d ∈ waypoints ->
  wp_type p = "pickup" -> wp_type d = "dropoff" ->
  wp_passenger_id p = wp_passenger_id d ->
  exists seg,
    _calculate_passenger_routes geodesic optimized_route waypoints
    !! wp_passenger_id p = Some seg
    /\ ((forall w, w ∈ or_waypoints optimized_route -> wp_id w <> wp_id p) ->
        pickup_order seg = 0%Z /\ estimated_pickup_time seg = 0%Z)
    /\ ((forall w, w ∈ or_waypoints optimized_route -> wp_id w <> wp_id d) ->
        dropoff_order seg = 0%Z /\ estimated_dropoff_time seg = 0%Z).
Proof.
  intros (Hty & NDp & NDd & _) Hpin Hdin Hp Hd Hid.
  destruct (group_pickup _ _ NDp Hpin Hp) as (e & He & Hpe).
  destruct (group_dropoff _ _ Hty NDd Hdin Hd) as (e' & He' & Hde).
  rewrite <- Hid, He in He'. injection He' as <-.
  unfold _calculate_passenger_routes. rewrite lookup_omap, He. simpl.
  rewrite Hpe, Hde. eexists. split; [done|].
  unfold passenger_route_of. simpl. split; intros Habs.
  - by rewrite index_of_id_absent.
  - by rewrite index_of_id_absent.
Qed.

Lemma absent_waypoint_zeroed_witness :
  exists seg,
    _calculate_passenger_routes taxicab incomplete_route one_passenger
    !! "a" = Some seg
    /\ ((forall w, w ∈ or_waypoints incomplete_route -> wp_id w <> "p1") ->
        pickup_order seg = 0%Z /\ estimated_pickup_time seg = 0%Z)
    /\ ((forall w, w ∈ or_waypoints incomplete_route -> wp_id w <> "d1") ->
        dropoff_order seg = 0%Z /\ estimated_dropoff_time seg = 0%Z).
Proof.
  apply (absent_waypoint_zeroed taxicab incomplete_route one_passenger
           (wp "p1" "pickup" 0 0 "a") (wp "d1" "dropoff" 5 0 "a")).
  - apply (bool_decide_unpack _). by vm_compute.
  - left.
  - right. left.
  - reflexivity.
  - reflexivity.
  - reflexivity.
Defined.

(** C4, as stated, fails when the dropoff of passenger a is missing from
    the sequenced route: the evaluator returns a segment for a whose
    dropoff order and dropoff ETA are 0. *)
Lemma incomplete_route_zeroed_segment :
  exists seg,
    _calculate_passenger_routes taxicab incomplete_route one_passenger
    !! "a" = Some seg
    /\ pickup_order seg = 1%Z
    /\ dropoff_order seg = 0%Z
    /\ estimated_dropoff_time seg = 0%Z.
Proof. eexists. split; [by vm_compute|]. by vm_compute. Qed.

Lemma efficiency_score_cases_witness :
  exists score,
    _calculate_efficiency_score taxicab scenario_c two_passengers
    = Returned score
    /\ 0 <= score <= 1
    /\ (_calculate_total_distance taxicab two_passengers == 0 -> score == 1)
    /\ (_calculate_total_distance taxicab two_passengers
        == _calculate_total_distance taxicab scenario_c -> score == 1)
    /\ (~ _calculate_total_distance taxicab two_passengers == 0 ->
        ~ _calculate_total_distance taxicab scenario_c == 0 ->
        score == Qmin 1 (_calculate_total_distance taxicab two_passengers
                         / _calculate_total_distance taxicab scenario_c))
    /\ (~ _calculate_total_distance taxicab two_passengers == 0 ->
        _calculate_total_distance taxicab scenario_c == 0 ->
        score = 1 # 2).
Proof.
  apply (efficiency_score_cases taxicab taxicab_nonneg scenario_c
           two_passengers).
Defined.

(** C9, as stated, fails when the sequenced route has distance 0 and the
    original order has not: the division raises and the score is 0.5, which
    is neither [min(1, original / sequenced)] nor 1. *)
Lemma efficiency_score_zero_sequenced :
  let optimized :=
    [wp "p1" "pickup" 0 0 "a"; wp "d1" "dropoff" 0 0 "a"] in
  let original :=
    [wp "p1" "pickup" 0 0 "a"; wp "s1" "stop" 1 1 "a";
     wp "d1" "dropoff" 0 0 "a"] in
  _calculate_efficiency_score taxicab optimized original = Returned (1 # 2)
  /\ ~ (1 # 2 == Qmin 1 (_calculate_total_distance taxicab original
                         / _calculate_total_distance taxicab optimized))
  /\ ~ (1 # 2 == 1).
Proof.
  split; [by vm_compute|]. split; intros H; vm_compute in H; discriminate.
Qed.

(** ** The entry point *)

Section OptimizeRoute.

Variable geodesic : Q * Q -> Q * Q -> Q.
Variable cache_key : list WaypointDict -> option Constraints -> string.
Variable now : string.

Abbreviation optimize := (optimize_route geodesic cache_key now).
Abbreviation optimize_try := (optimize_route_try geodesic cache_key now).

Lemma parse_waypoints_length (waypoints : list WaypointDict) :
  length (_parse_waypoints waypoints) = length waypoints.
Proof. unfold _parse_waypoints. apply length_imap. Qed.

Lemma genetic_algorithm_total (waypoints : list Waypoint) constraints :
  exists r,
    _optimize_with_genetic_algorithm geodesic waypoints constraints
    = Returned r.
Proof.
  destruct (optimized_waypoints_returns geodesic waypoints constraints)
    as [out E].
  destruct (genetic_algorithm_returns _ _ _ _ E) as (r & Er & _). eauto.
Qed.

(** [optimize_route] always returns a dictionary. *)
Lemma optimize_route_total redis waypoints constraints :
  exists r redis',
    optimize redis waypoints constraints = Returned (r, redis').
Proof.
  unfold optimize_route, optimize_route_try.
  destruct (_ <? _)%nat; [by eexists _, _|].
  destruct (redis !! _); [by eexists _, _|].
  destruct (_ <? _)%Z; [by eexists _, _|].
  destruct (genetic_algorithm_total (_parse_waypoints waypoints)
              (default (mkConstraints None) constraints)) as [r ->].
  by eexists _, _.
Qed.

Lemma too_few_raises redis waypoints constraints :
  (length waypoints < 2)%nat ->
  optimize_try redis waypoints constraints
  = Raised (ValueError "At least 2 waypoints required").
Proof.
  intros H. unfold optimize_route_try. rewrite parse_waypoints_length.
  apply Nat.ltb_lt in H. by rewrite H.
Qed.

Lemma too_many_raises redis waypoints constraints :
  (2 <= length waypoints)%nat ->
  redis !! cache_key waypoints constraints = None ->
  let cap := Z.min (max_passengers_of (default (mkConstraints None) constraints))
                   self_max_passengers in
  let passengers := passengers_of (_parse_waypoints waypoints) in
  (cap < Z.of_nat (size passengers))%Z ->
  optimize_try redis waypoints constraints
  = Raised (ValueError (too_many_passengers (size passengers) cap)).
Proof.
  intros Hlen Hmiss cap passengers Hcap. unfold optimize_route_try.
  rewrite parse_waypoints_length.
  apply Nat.ltb_ge in Hlen. rewrite Hlen, Hmiss.
  fold cap. fold passengers. apply Z.ltb_lt in Hcap. by rewrite Hcap.
Qed.

(** C1 (as amended): with fewer than 2 waypoints, and, when the result is
    not served from the cache, with more distinct non-empty passenger ids
    than the [max_passengers] constraint, [optimize_route] raises nothing
    to its caller: it returns the fallback dictionary (algorithm
    ['fallback'], the error text set, no passenger routes, the waypoints
    as they were sent) and leaves the cache as it was. *)
Theorem invalid_input_returns_fallback redis waypoints constraints :
  (length waypoints < 2)%nat
  \/ (redis !! cache_key waypoints constraints = None
      /\ (max_passengers_of (default (mkConstraints None) constraints)
          < Z.of_nat (size (passengers_of (_parse_waypoints waypoints))))%Z) ->
  optimize redis waypoints constraints
  = Returned (_fallback_route_optimization now waypoints, redis)
  /\ algorithm (optimization_metadata
                  (_fallback_route_optimization now waypoints)) = "fallback"
  /\ is_Some (error (_fallback_route_optimization now waypoints))
  /\ optimized_waypoints (_fallback_route_optimization now waypoints)
     = waypoints.
Proof.
  intros H. split; [|by repeat split].
  unfold optimize_route.
  destruct (decide (length waypoints < 2)%nat) as [Hlt|Hge].
  - by rewrite too_few_raises.
  - destruct H as [?|[Hmiss Hcap]]; [done|].
    rewrite too_many_raises; [done|lia|done|lia].
Qed.


End OptimizeRoute.

Lemma invalid_input_returns_fallback_witness :
  optimize_route taxicab example_key example_now ∅ single_waypoint None
  = Returned (_fallback_route_optimization example_now single_waypoint, ∅)
  /\ algorithm (optimization_metadata
                  (_fallback_route_optimization example_now single_waypoint))
     = "fallback"
  /\ is_Some (error (_fallback_route_optimization example_now single_waypoint))
  /\ optimized_waypoints
       (_fallback_route_optimization example_now single_waypoint)
     = single_waypoint.
Proof.
  apply (invalid_input_returns_fallback taxicab example_key example_now ∅
           single_waypoint None).
  left. simpl. lia.
Defined.

(** C1, as stated, fails on a single waypoint and on scenario D (five
    passengers, [max_passengers] 4): no error reaches the caller, the
    fallback dictionary is returned as a normal result. *)
Lemma invalid_input_no_error :
  let few :=
    optimize_route taxicab example_key example_now ∅ single_waypoint None in
  let many :=
    optimize_route taxicab example_key example_now ∅ scenario_d
      (Some (mkConstraints (Some 4%Z))) in
  few = Returned (_fallback_route_optimization example_now single_waypoint, ∅)
  /\ many = Returned (_fallback_route_optimization example_now scenario_d, ∅)
  /\ ~ (exists e, few = Raised e)
  /\ ~ (exists e, many = Raised e).
Proof.
  intros few many.
  assert (few = Returned
                  (_fallback_route_optimization example_now single_waypoint, ∅))
    as Hfew by (by vm_compute).
  assert (many = Returned
                   (_fallback_route_optimization example_now scenario_d, ∅))
    as Hmany by (by vm_compute).
  split; [done|]. split; [done|].
  split; intros [e He]; congruence.
Qed.


(** ** Rounding *)

Lemma round_half_even_bounds (x : Q) :
  (Qfloor x <= round_half_even x <= Qfloor x + 1)%Z.
Proof.
  unfold round_half_even.
  destruct (Qcompare _ _); [destruct (Z.even _)| |]; lia.
Qed.

Lemma round_half_even_mono (x y : Q) :
  x <= y -> (round_half_even x <= round_half_even y)%Z.
Proof.
  intros Hxy. pose proof (Qfloor_resp_le _ _ Hxy) as Hf.
  destruct (decide (Qfloor x = Qfloor y)) as [E|Hne].
  - unfold round_half_even. rewrite <- E.
    destruct (Qcompare (x - _) _) eqn:Ex, (Qcompare (y - _) _) eqn:Ey;
      try (destruct (Z.even _); lia); try lia; exfalso;
      first [apply Qeq_alt in Ex | apply Qlt_alt in Ex | apply Qgt_alt in Ex];
      first [apply Qeq_alt in Ey | apply Qlt_alt in Ey | apply Qgt_alt in Ey];
      lra.
  - pose proof (round_half_even_bounds x). pose proof (round_half_even_bounds y).
    lia.
Qed.

Lemma pow10_pos (n : nat) : 0 < inject_Z (10 ^ Z.of_nat n).
Proof.
  change 0 with (inject_Z 0). rewrite <- Zlt_Qlt.
  apply Z.pow_pos_nonneg; lia.
Qed.

Lemma py_round_mono (x y : Q) (ndigits : nat) :
  x <= y -> py_round x ndigits <= py_round y ndigits.
Proof.
  intros Hxy. unfold py_round, Qdiv.
  pose proof (pow10_pos ndigits) as Hpos.
  apply Qmult_le_compat_r.
  - rewrite <- Zle_Qle. apply round_half_even_mono.
    apply Qmult_le_compat_r; [done|]. by apply Qlt_le_weak.
  - apply Qinv_le_0_compat. by apply Qlt_le_weak.
Qed.

Lemma py_round_threshold : py_round threshold 3 == threshold.
Proof. by vm_compute. Qed.

(** ** Ranking *)

Section Sorting.

Context {A : Type} (key : A -> Q).

Lemma insert_reverse_perm (x : A) (l : list A) :
  insert_reverse key x l ≡ₚ x :: l.
Proof.
  induction l as [|y l IH]; simpl; [done|].
  destruct (Qltb _ _); [|done].
  rewrite IH. apply Permutation_swap.
Qed.

Lemma sort_reverse_perm (l : list A) : sort_reverse key l ≡ₚ l.
Proof.
  induction l as [|x l IH]; simpl; [done|].
  by rewrite insert_reverse_perm, IH.
Qed.

Lemma insert_reverse_sorted (x : A) (l : list A) :
  StronglySorted (fun a b => key b <= key a) l ->
  StronglySorted (fun a b => key b <= key a) (insert_reverse key x l).
Proof.
  induction 1 as [|y l Hs IH Hy]; simpl.
  - repeat constructor.
  - destruct (Qltb (key x) (key y)) eqn:E.
    + apply Qltb_lt in E. constructor; [done|].
      rewrite insert_reverse_perm. constructor; [|done].
      by apply Qlt_le_weak.
    + apply Qltb_ge in E. constructor; [by constructor|].
      constructor; [done|].
      eapply Forall_impl; [exact Hy|]. intros z Hz. simpl in Hz.
      by apply (Qle_trans _ (key y)).
Qed.

Lemma sort_reverse_sorted (l : list A) :
  StronglySorted (fun a b => key b <= key a) (sort_reverse key l).
Proof.
  induction l as [|x l IH]; simpl; [constructor|].
  by apply insert_reverse_sorted.
Qed.

(** Stability: the elements with a given key keep their order. *)
Lemma insert_reverse_stable (s : Q) (x : A) (l : list A) :
  filter (fun y => Qeq_bool (key y) s = true) (insert_reverse key x l)
  = filter (fun y => Qeq_bool (key y) s = true) (x :: l).
Proof.
  induction l as [|y l IH]; simpl; [done|].
  destruct (Qltb (key x) (key y)) eqn:E; [|done].
  apply Qltb_lt in E.
  rewrite filter_cons, IH, !filter_cons.
  destruct (decide (Qeq_bool (key y) s = true)) as [Hy|Hy]; [|done].
  destruct (decide (Qeq_bool (key x) s = true)) as [Hx|Hx]; [|done].
  apply Qeq_bool_eq in Hx, Hy. exfalso. rewrite Hx, Hy in E.
  by apply Qlt_irrefl in E.
Qed.

Lemma sort_reverse_stable (s : Q) (l : list A) :
  filter (fun y => Qeq_bool (key y) s = true) (sort_reverse key l)
  = filter (fun y => Qeq_bool (key y) s = true) l.
Proof.
  induction l as [|x l IH]; simpl; [done|].
  by rewrite insert_reverse_stable, !filter_cons, IH.
Qed.

End Sorting.


Section FindMatches.

Variable geodesic : Q * Q -> Q * Q -> Q.
Variable current_year : Z.
Variable cache_key : Q * Q -> Q * Q -> string -> Preferences -> string.
Variable fromisoformat : string -> outcome Q.
Variable get_rides : Q -> Preferences -> list Ride.

Abbreviation find :=
  (find_matches geodesic current_year cache_key fromisoformat get_rides).
Abbreviation scored :=
  (matches_of geodesic current_year).


(** What [find_matches] returns when the answer is computed. *)
Lemma find_matches_computed redis origin destination departure_time
    preferences departure_dt :
  redis !! cache_key origin destination departure_time preferences = None
  \/ redis !! cache_key origin destination departure_time preferences
     = Some [] ->
  fromisoformat departure_time = Returned departure_dt ->
  exists redis',
    find redis origin destination departure_time preferences
    = Returned
        (_match_to_dict
           <$> take 20
                 (sort_reverse rm_compatibility_score
                    (scored (get_rides departure_dt preferences) origin
                       destination departure_dt preferences)),
         redis').
Proof.
  intros Hmiss Hparse. unfold find_matches.
  assert (forall (X : MatchDict -> list MatchDict ->
                      outcome (list MatchDict * gmap string (list MatchDict)))
                 (Y : outcome (list MatchDict * gmap string (list MatchDict))),
            match redis !! cache_key origin destination departure_time
                              preferences with
            | Some (m :: cached) => X m cached
            | _ => Y
            end = Y) as Hskip.
  { intros X Y. by destruct Hmiss as [-> | ->]. }
  rewrite (Hskip (fun m cached => mret (m :: cached, redis))).
  rewrite Hparse. simpl.
  destruct (get_rides departure_dt preferences) as [|r rides]; by eexists.
Qed.


(** C8 (as amended): [find_matches] sorts by compatibility score only, with
    a stable sort: the ranked matches are the scored ones in descending
    order of score, and results with equal scores keep the order in which
    their rides were supplied; neither the origin distance nor the ride id
    breaks a tie. *)
Theorem find_matches_stable redis origin destination departure_time
    preferences departure_dt :
  redis !! cache_key origin destination departure_time preferences = None
  \/ redis !! cache_key origin destination departure_time preferences
     = Some [] ->
  fromisoformat departure_time = Returned departure_dt ->
  let matches :=
    scored (get_rides departure_dt preferences) origin destination
      departure_dt preferences in
  exists ranked redis',
    find redis origin destination departure_time preferences
    = Returned (_match_to_dict <$> take 20 ranked, redis')
    /\ ranked ≡ₚ matches
    /\ StronglySorted
         (fun a b => rm_compatibility_score b <= rm_compatibility_score a)
         ranked
    /\ forall score,
         filter (fun m => Qeq_bool (rm_compatibility_score m) score = true)
                ranked
         = filter (fun m => Qeq_bool (rm_compatibility_score m) score = true)
                  matches.
Proof.
  intros Hmiss Hparse matches.
  destruct (find_matches_computed redis origin destination departure_time
              preferences departure_dt Hmiss Hparse) as [redis' E].
  exists (sort_reverse rm_compatibility_score matches), redis'.
  split; [exact E|]. split; [apply sort_reverse_perm|].
  split; [apply sort_reverse_sorted|].
  intros score. apply sort_reverse_stable.
Qed.

End FindMatches.



Lemma find_matches_stable_witness :
  let matches := matches_of taxicab 2025 tied_rides (0, 0) (0, 0) 0
                   no_preferences in
  exists ranked redis',
    find_matches taxicab 2025 example_match_key example_fromisoformat
      (fun _ _ => tied_rides) ∅ (0, 0) (0, 0) "2025-01-21T08:00:00"
      no_preferences
    = Returned (_match_to_dict <$> take 20 ranked, redis')
    /\ ranked ≡ₚ matches
    /\ StronglySorted
         (fun a b => rm_compatibility_score b <= rm_compatibility_score a)
         ranked
    /\ forall score,
         filter (fun m => Qeq_bool (rm_compatibility_score m) score = true)
                ranked
         = filter (fun m => Qeq_bool (rm_compatibility_score m) score = true)
                  matches.
Proof.
  apply (find_matches_stable taxicab 2025 example_match_key
           example_fromisoformat (fun _ _ => tied_rides) ∅ (0, 0) (0, 0)
           "2025-01-21T08:00:00" no_preferences 0).
  - left. reflexivity.
  - reflexivity.
Defined.

(** C8, as stated, fails on two rides with equal scores: the ride that is
    farther from the origin (and has the larger id) is supplied first and
    stays first, ahead of the ride that is nearer. *)
Lemma tied_rides_keep_input_order :
  exists m1 m2 redis',
    find_matches taxicab 2025 example_match_key example_fromisoformat
      (fun _ _ => tied_rides) ∅ (0, 0) (0, 0) "2025-01-21T08:00:00"
      no_preferences
    = Returned ([m1; m2], redis')
    /\ md_compatibility_score m1 == md_compatibility_score m2
    /\ md_distance_from_origin m2 < md_distance_from_origin m1
    /\ md_ride_id m1 = "r2" /\ md_ride_id m2 = "r1".
Proof.
  eexists _, _, _. split; [vm_compute; reflexivity|].
  simpl. repeat split; by vm_compute.
Qed.

(** ** Failed computations *)

(** C6 (as amended): a failed computation of the route service ends as a
    fixed number inside a normal result: the efficiency score is 0.5 when
    its division fails, and whenever the body of [optimize_route] raises,
    the caller gets the fallback summary (10 km, 30 minutes, efficiency
    0.5) and never an error.  In the matching service a candidate
    whose scoring fails gives a null (excluded) result. *)
Theorem failures_become_defaults geodesic cache_key now :
  (forall optimized original,
     ~ _calculate_total_distance geodesic original == 0 ->
     _calculate_total_distance geodesic optimized == 0 ->
     _calculate_efficiency_score geodesic optimized original
     = Returned (1 # 2))
  /\ (forall redis waypoints constraints e,
        optimize_route_try geodesic cache_key now redis waypoints constraints
        = Raised e ->
        optimize_route geodesic cache_key now redis waypoints constraints
        = Returned (_fallback_route_optimization now waypoints, redis))
  /\ (forall redis waypoints constraints,
        exists r redis',
          optimize_route geodesic cache_key now redis waypoints constraints
          = Returned (r, redis'))
  /\ (forall waypoints,
        let summary :=
          route_summary (_fallback_route_optimization now waypoints) in
        total_distance_km summary = 10
        /\ total_time_minutes summary = 30
        /\ efficiency_score summary = 1 # 2)
  /\ (forall current_year ride origin destination departure_time preferences e,
        _calculate_compatibility_try geodesic current_year ride origin
          destination departure_time preferences = Raised e ->
        _calculate_compatibility geodesic current_year ride origin
          destination departure_time preferences = None).
Proof.
  split; [|split; [|split; [|split]]].
  - intros optimized original Hs Ho.
    unfold _calculate_efficiency_score, py_div.
    destruct (Qeq_bool _ 0) eqn:Es.
    { by apply Qeq_bool_eq in Es. }
    by rewrite (Qeq_eq_bool _ _ Ho).
  - intros redis waypoints constraints e E.
    unfold optimize_route. by rewrite E.
  - apply optimize_route_total.
  - done.
  - intros current_year ride origin destination departure_time preferences
      e E.
    unfold _calculate_compatibility. by rewrite E.
Qed.

(** C6, as stated, fails on a round trip with a stop of another kind: the
    division of the efficiency score raises, and [optimize_route] returns
    a normal result (no error field, algorithm ['genetic_algorithm'])
    whose efficiency score is the fixed 0.5. *)
Lemma round_trip_default_score :
  exists r redis',
    optimize_route taxicab example_key example_now ∅ round_trip None
    = Returned (r, redis')
    /\ error r = None
    /\ algorithm (optimization_metadata r) = "genetic_algorithm"
    /\ efficiency_score (route_summary r) == 1 # 2
    /\ py_div (_calculate_total_distance taxicab (_parse_waypoints round_trip))
         (_calculate_total_distance taxicab
            [wp "p1" "pickup" 0 0 "a"; wp "d1" "dropoff" 0 0 "a"])
       = Raised ZeroDivisionError.
Proof.
  eexists _, _. split; [vm_compute; reflexivity|].
  simpl. repeat split; by vm_compute.
Qed.

(** * Further properties of the two services *)

(** ** Waypoint dictionaries *)

(** X1: parsing the dictionaries that [_waypoint_to_dict] writes gives the
    waypoints back: no default is used. *)
Theorem parse_waypoint_to_dict (waypoints : list Waypoint) :
  _parse_waypoints (_waypoint_to_dict <$> waypoints) = waypoints.
Proof.
  unfold _parse_waypoints. rewrite imap_fmap.
  rewrite <- (list_fmap_id waypoints) at 2. rewrite <- imap_const.
  apply imap_ext. intros i w _. by destruct w.
Qed.

Lemma parse_passenger_ids_absent (waypoints : list WaypointDict) :
  Forall (fun d => d_passenger_id d = None) waypoints ->
  wp_passenger_id <$> _parse_waypoints waypoints
  = (fun i => "passenger_" +:+ pretty i) <$> seq 0 (length waypoints).
Proof.
  intros H. unfold _parse_waypoints. rewrite fmap_imap.
  rewrite <- imap_seq_0. apply imap_ext. intros i d Hd. simpl.
  rewrite Forall_forall in H. rewrite (H d); [done|].
  apply list_elem_of_lookup. eauto.
Qed.

Lemma default_passenger_inj (i j : nat) :
  "passenger_" +:+ pretty i = "passenger_" +:+ pretty j -> i = j.
Proof. simpl. intros [= H]. by apply pretty_nat_inj in H. Qed.

(** X3: every waypoint sent without a passenger id gets an id of its own,
    so a list of waypoints without passenger ids has as many passengers as
    waypoints; with 5 or more of them a request that is not served from
    the cache ends in the fallback. *)
Theorem absent_passenger_ids_distinct geodesic cache_key now redis
    (waypoints : list WaypointDict) constraints :
  Forall (fun d => d_passenger_id d = None) waypoints ->
  size (passengers_of (_parse_waypoints waypoints)) = length waypoints
  /\ (redis !! cache_key waypoints constraints = None ->
      (5 <= length waypoints)%nat ->
      optimize_route geodesic cache_key now redis waypoints constraints
      = Returned (_fallback_route_optimization now waypoints, redis)).
Proof.
  intros Habs.
  assert (size (passengers_of (_parse_waypoints waypoints))
          = length waypoints) as Hsize.
  { unfold passengers_of. rewrite parse_passenger_ids_absent by done.
    assert (filter (fun p : string => p <> "")
              ((fun i => "passenger_" +:+ pretty i)
                 <$> seq 0 (length waypoints))
            = (fun i => "passenger_" +:+ pretty i)
                <$> seq 0 (length waypoints)) as ->.
    { generalize (seq 0 (length waypoints)). intros l.
      induction l as [|i l IH]; [done|].
      rewrite fmap_cons, filter_cons, IH. by rewrite decide_True. }
    rewrite size_list_to_set; [by rewrite length_fmap, length_seq|].
    apply NoDup_fmap_2_strong; [|apply NoDup_seq].
    intros i j _ _. apply default_passenger_inj. }
  split; [done|]. intros Hmiss H5.
  unfold optimize_route.
  rewrite too_many_raises; [done|lia|done|].
  rewrite Hsize. unfold self_max_passengers. lia.
Qed.

(** ** The sequencer on arbitrary input *)

Lemma list_remove_subset (x : Waypoint) (l l' : list Waypoint) :
  list_remove x l = Returned l' -> forall y, y ∈ l' -> y ∈ l.
Proof.
  revert l'. induction l as [|a l IH]; intros l'; simpl; [done|].
  destruct (Waypoint_eqb a x).
  - intros [= ->] y Hy. by right.
  - destruct (list_remove x l) as [l''| |]; simpl; try done.
    intros [= <-] y Hy. apply elem_of_cons in Hy as [->|Hy]; [left|].
    right. by apply (IH l'').
Qed.

Lemma candidates_of_subset constraints (st : route_state) (w : Waypoint) :
  w ∈ candidates_of constraints st ->
  w ∈ remaining_pickups st ++ remaining_dropoffs st.
Proof.
  unfold candidates_of. intros H. apply elem_of_app.
  destruct (_ >=? _)%Z.
  - right. by apply list_elem_of_filter in H as [_ ?].
  - apply elem_of_app in H as [?|H]; [by left|].
    right. by apply list_elem_of_filter in H as [_ ?].
Qed.

(** Whatever the lists, a route the loop returns has one entry for every
    waypoint it started from and holds none but these. *)
Lemma route_loop_content geodesic constraints (fuel : nat)
    (st : route_state) (out : list Waypoint) :
  route_loop geodesic fuel constraints st = Returned out ->
  length out
  = (length (optimized_route st) + length (remaining_pickups st)
     + length (remaining_dropoffs st))%nat
  /\ forall w, w ∈ out ->
       w ∈ optimized_route st ++ remaining_pickups st
           ++ remaining_dropoffs st.
Proof.
  revert st. induction fuel as [|fuel IH]; intros st.
  - destruct st as [route cur rp rd car]. simpl.
    destruct rp, rd; try done. intros [= <-]. simpl.
    rewrite app_nil_r. split; [lia|done].
  - destruct (decide (remaining_pickups st = [] /\ remaining_dropoffs st = []))
      as [[Erp Erd]|Hne].
    + simpl. rewrite Erp, Erd. intros [= <-]. simpl.
      rewrite app_nil_r. split; [lia|done].
    + rewrite route_loop_unfold.
      2:{ destruct (remaining_pickups st); [|by left].
          destruct (remaining_dropoffs st); [|by right]. by destruct Hne. }
      destruct (nearest _ _ _) as [next|] eqn:En.
      * apply nearest_elem, candidates_of_subset in En. simpl.
        case_decide.
        -- destruct (list_remove next (remaining_pickups st)) as [rest| |] eqn:E;
             simpl; try done.
           intros Hout. apply IH in Hout as [Hlen Hin]. simpl in *.
           pose proof (list_remove_length _ _ _ E).
           pose proof (list_remove_subset _ _ _ E) as Hsub.
           rewrite length_app in Hlen. simpl in Hlen. split; [lia|].
           intros w Hw. specialize (Hin w Hw).
           rewrite !elem_of_app in Hin. rewrite !elem_of_app in En.
           rewrite !elem_of_app. rewrite list_elem_of_singleton in Hin.
           destruct Hin as [[?| ->]|[?|?]]; auto.
        -- destruct (list_remove next (remaining_dropoffs st)) as [rest| |] eqn:E;
             simpl; try done.
           intros Hout. apply IH in Hout as [Hlen Hin]. simpl in *.
           pose proof (list_remove_length _ _ _ E).
           pose proof (list_remove_subset _ _ _ E) as Hsub.
           rewrite length_app in Hlen. simpl in Hlen. split; [lia|].
           intros w Hw. specialize (Hin w Hw).
           rewrite !elem_of_app in Hin. rewrite !elem_of_app in En.
           rewrite !elem_of_app. rewrite list_elem_of_singleton in Hin.
           destruct Hin as [[?| ->]|[?|?]]; auto.
      * intros [= <-]. rewrite !length_app. split; [lia|done].
Qed.

Lemma multi_passenger_content geodesic (pickups dropoffs : list Waypoint)
    constraints (out : list Waypoint) :
  _optimize_multi_passenger_route geodesic pickups dropoffs constraints
  = Returned out ->
  length out = (length pickups + length dropoffs)%nat
  /\ forall w, w ∈ out -> w ∈ pickups ++ dropoffs.
Proof.
  unfold _optimize_multi_passenger_route.
  assert (forall st, initial_state pickups dropoffs = Returned st ->
            optimized_route st ++ remaining_pickups st
              ++ remaining_dropoffs st = pickups ++ dropoffs) as Hinit.
  { unfold initial_state, mret, outcome_ret.
    destruct pickups as [|p P]; [destruct dropoffs as [|d D]|];
      intros st; try done; by intros [= <-]. }
  destruct (initial_state pickups dropoffs) as [st|e|] eqn:Est; simpl.
  - specialize (Hinit st eq_refl).
    destruct (route_loop _ _ _ _) as [out'|e|] eqn:E; simpl.
    + intros [= <-]. apply route_loop_content in E as [Hlen Hin].
      rewrite Hinit in Hin. split; [|done].
      apply (f_equal length) in Hinit. rewrite !length_app in Hinit. lia.
    + intros [= <-]. by rewrite length_app.
    + done.
  - intros [= <-]. by rewrite length_app.
  - done.
Qed.

Lemma Waypoint_eqb_id (a b : Waypoint) :
  Waypoint_eqb a b = true -> wp_id a = wp_id b.
Proof.
  unfold Waypoint_eqb. rewrite !andb_true_iff.
  intros [[[[[[[H _] _] _] _] _] _] _]. by apply String.eqb_eq.
Qed.

(** [list.remove] takes out the element itself when no other element of
    the list compares equal to it. *)
Lemma list_remove_perm (x : Waypoint) (l l' : list Waypoint) :
  (forall y, y ∈ l -> Waypoint_eqb y x = true -> y = x) ->
  list_remove x l = Returned l' -> l ≡ₚ x :: l'.
Proof.
  revert l'. induction l as [|a l IH]; intros l' Hinj; simpl; [done|].
  destruct (Waypoint_eqb a x) eqn:E.
  - intros [= ->]. by rewrite (Hinj a) by (done || by left).
  - destruct (list_remove x l) as [l''| |]; simpl; try done.
    intros [= <-]. rewrite (IH l''); [apply perm_swap | | done].
    intros y Hy. apply Hinj. by right.
Qed.

(** With distinct ids the loop loses and repeats nothing. *)
Lemma route_loop_perm geodesic constraints (all : list Waypoint)
    (fuel : nat) (st : route_state) (out : list Waypoint) :
  NoDup (wp_id <$> all) ->
  (forall w, w ∈ remaining_pickups st -> w ∈ all /\ wp_type w = "pickup") ->
  (forall w, w ∈ remaining_dropoffs st ->
             w ∈ all /\ wp_type w <> "pickup") ->
  route_loop geodesic fuel constraints st = Returned out ->
  out ≡ₚ optimized_route st ++ remaining_pickups st ++ remaining_dropoffs st.
Proof.
  intros Hids. revert st. induction fuel as [|fuel IH]; intros st Hp Hd.
  - destruct st as [route cur rp rd car]. simpl.
    destruct rp, rd; try done. intros [= <-]. simpl. by rewrite app_nil_r.
  - destruct (decide (remaining_pickups st = [] /\ remaining_dropoffs st = []))
      as [[Erp Erd]|Hne].
    + simpl. rewrite Erp, Erd. intros [= <-]. simpl. by rewrite app_nil_r.
    + rewrite route_loop_unfold.
      2:{ destruct (remaining_pickups st); [|by left].
          destruct (remaining_dropoffs st); [|by right]. by destruct Hne. }
      destruct (nearest _ _ _) as [next|] eqn:En; [|by intros [= <-]].
      apply nearest_elem, candidates_of_subset, elem_of_app in En.
      assert (next ∈ all) as Hnext.
      { destruct En as [H|H]; [by apply Hp in H as [? _]
                              |by apply Hd in H as [? _]]. }
      assert (forall y, y ∈ all -> Waypoint_eqb y next = true -> y = next)
        as Hinj.
      { intros y Hy E. apply (NoDup_fmap_elem_inj wp_id all); try done.
        by apply Waypoint_eqb_id. }
      simpl. case_decide.
      * destruct (list_remove next (remaining_pickups st)) as [rest| |] eqn:E;
          simpl; try done.
        intros Hout. apply IH in Hout; simpl.
        -- simpl in Hout. rewrite Hout.
           assert (remaining_pickups st ≡ₚ next :: rest) as ->.
           { apply list_remove_perm; [|done].
             intros y Hy. apply Hinj. by apply Hp in Hy as [? _]. }
           by rewrite <- app_assoc.
        -- intros w Hw. apply Hp. by apply (list_remove_subset _ _ _ E).
        -- done.
      * destruct (list_remove next (remaining_dropoffs st)) as [rest| |] eqn:E;
          simpl; try done.
        intros Hout. apply IH in Hout; simpl.
        -- simpl in Hout. rewrite Hout.
           assert (remaining_dropoffs st ≡ₚ next :: rest) as ->.
           { apply list_remove_perm; [|done].
             intros y Hy. apply Hinj. by apply Hd in Hy as [? _]. }
           rewrite <- app_assoc. simpl.
           apply Permutation_app_head, Permutation_middle.
        -- done.
        -- intros w Hw. apply Hd. by apply (list_remove_subset _ _ _ E).
Qed.

Lemma multi_passenger_perm geodesic (all pickups dropoffs : list Waypoint)
    constraints (out : list Waypoint) :
  NoDup (wp_id <$> all) ->
  (forall w, w ∈ pickups -> w ∈ all /\ wp_type w = "pickup") ->
  (forall w, w ∈ dropoffs -> w ∈ all /\ wp_type w <> "pickup") ->
  _optimize_multi_passenger_route geodesic pickups dropoffs constraints
  = Returned out ->
  out ≡ₚ pickups ++ dropoffs.
Proof.
  intros Hids Hp Hd. unfold _optimize_multi_passenger_route.
  destruct (initial_state pickups dropoffs) as [st|e|] eqn:Est; simpl;
    [|by intros [= <-]|done].
  destruct (route_loop _ _ _ _) as [out'|e|] eqn:E; simpl;
    [|by intros [= <-]|done].
  intros [= <-]. apply (route_loop_perm _ _ all) in E; [|done|..].
  - rewrite E. unfold initial_state, mret, outcome_ret in Est.
    destruct pickups as [|p P]; [destruct dropoffs as [|d D]|];
      try done; by injection Est as <-.
  - unfold initial_state, mret, outcome_ret in Est.
    destruct pickups as [|p P]; [destruct dropoffs as [|d D]|];
      try done; injection Est as <-; simpl; intros w Hw.
    + by apply elem_of_nil in Hw.
    + apply Hp. by right.
  - unfold initial_state, mret, outcome_ret in Est.
    destruct pickups as [|p P]; [destruct dropoffs as [|d D]|];
      try done; by injection Est as <-.
Qed.

(** X2: for waypoints with distinct ids, whatever the constraints, the
    sequencer returns a route that is a rearrangement of the pickups and
    the dropoffs of the input: every pickup and every dropoff is in the
    route exactly once, and a waypoint of any other kind is left out. *)
Theorem sequencer_keeps_pickups_dropoffs geodesic
    (waypoints : list Waypoint) constraints :
  NoDup (wp_id <$> waypoints) ->
  exists r,
    _optimize_with_genetic_algorithm geodesic waypoints constraints
    = Returned r
    /\ or_waypoints r ≡ₚ pickups_of waypoints ++ dropoffs_of waypoints
    /\ NoDup (or_waypoints r)
    /\ forall w, w ∈ or_waypoints r
         <-> w ∈ waypoints /\ (wp_type w = "pickup" \/ wp_type w = "dropoff").
Proof.
  intros Hids.
  destruct (optimized_waypoints_returns geodesic waypoints constraints)
    as [out E].
  destruct (genetic_algorithm_returns _ _ _ _ E) as (r & Er & <-).
  exists r. split; [done|].
  assert (or_waypoints r ≡ₚ pickups_of waypoints ++ dropoffs_of waypoints)
    as Hperm.
  { unfold optimized_waypoints_of in E. destruct (_ && _).
    - by injection E as <-.
    - apply (multi_passenger_perm _ waypoints) in E; [done..| |].
      + intros w Hw. by apply elem_of_pickups_of in Hw as [? ?].
      + intros w Hw. apply elem_of_dropoffs_of in Hw as [Ht ?].
        split; [done|]. by rewrite Ht. }
  split; [done|]. split.
  - rewrite Hperm. apply NoDup_app. split_and!.
    + apply NoDup_filter. by apply (NoDup_fmap_1 wp_id).
    + intros w Hp Hd. apply elem_of_pickups_of in Hp as [Hp _].
      apply elem_of_dropoffs_of in Hd as [Hd _]. by rewrite Hp in Hd.
    + apply NoDup_filter. by apply (NoDup_fmap_1 wp_id).
  - intros w. rewrite Hperm, elem_of_app, elem_of_pickups_of,
      elem_of_dropoffs_of. tauto.
Qed.

(** ** Truncation *)

Lemma py_int_spec (x : Q) :
  py_int x = if Qle_bool 0 x then Qfloor x else Qceiling x.
Proof.
  destruct x as [n d]. unfold py_int, Qle_bool, Qceiling, Qfloor. simpl.
  rewrite Z.mul_1_r. change (0 * Z.pos d)%Z with 0%Z.
  destruct (0 <=? n)%Z eqn:E.
  - apply Z.leb_le in E. apply Z.quot_div_nonneg; lia.
  - apply Z.leb_gt in E.
    rewrite <- (Z.opp_involutive n) at 1.
    rewrite Z.quot_opp_l by lia.
    rewrite Z.quot_div_nonneg by lia. done.
Qed.

Lemma py_int_mono_nonneg (x y : Q) :
  0 <= x -> x <= y -> (0 <= py_int x <= py_int y)%Z.
Proof.
  intros Hx Hxy. rewrite !py_int_spec.
  assert (0 <= y) as Hy by (by apply (Qle_trans _ x)).
  apply Qle_bool_iff in Hx as Hbx. apply Qle_bool_iff in Hy as Hby.
  rewrite Hbx, Hby. split; [|by apply Qfloor_resp_le].
  change 0%Z with (Qfloor 0). by apply Qfloor_resp_le.
Qed.

(** ** Estimated times of arrival *)

Lemma py_round_nonneg (x : Q) : 0 <= x -> 0 <= py_round x 1.
Proof.
  intros Hx. assert (py_round 0 1 == 0) as <- by (by vm_compute).
  by apply py_round_mono.
Qed.

Section EtaOrder.

Variable geodesic : Q * Q -> Q * Q -> Q.
Hypothesis geodesic_nonneg : forall a b, 0 <= geodesic a b.

Abbreviation eta_step' :=
  (fun (total_time : Q) '(current, next_wp) =>
     total_time
     + (geodesic (coords current) (coords next_wp) / avg_speed_kmh * 3600
        + inject_Z (wp_estimated_time current))).

Lemma eta_fold_grows (L : list (Waypoint * Waypoint)) (t : Q) :
  Forall (fun leg => (0 <= wp_estimated_time (fst leg))%Z) L ->
  t <= fold_left eta_step' L t.
Proof using geodesic_nonneg.
  intros H. revert t. induction H as [|[c n] L Hc _ IH]; intros t; simpl.
  - apply Qle_refl.
  - eapply Qle_trans; [|apply IH]. simpl in Hc.
    pose proof (geodesic_nonneg (coords c) (coords n)) as Hg.
    assert (0 <= inject_Z (wp_estimated_time c)) as Hs.
    { change 0 with (inject_Z 0). by rewrite <- Zle_Qle. }
    assert (0 <= geodesic (coords c) (coords n) / avg_speed_kmh * 3600)
      as Hd.
    { unfold avg_speed_kmh, Qdiv. apply Qmult_le_0_compat; [|done].
      apply Qmult_le_0_compat; done. }
    lra.
Qed.

Lemma legs_stop_times (route : list Waypoint) :
  Forall (fun w => (0 <= wp_estimated_time w)%Z) route ->
  Forall (fun leg => (0 <= wp_estimated_time (fst leg))%Z) (legs route).
Proof.
  rewrite !Forall_forall. intros H [c n] Hin. simpl.
  apply H. unfold legs in Hin. by apply elem_of_zip_l in Hin.
Qed.

(** The ETAs do not decrease along a route whose stop times are not
    negative. *)
Lemma eta_mono (route : list Waypoint) (i j : nat) :
  Forall (fun w => (0 <= wp_estimated_time w)%Z) route ->
  (i <= j < length route)%nat ->
  (0 <= _calculate_waypoint_eta geodesic route (Z.of_nat i)
   <= _calculate_waypoint_eta geodesic route (Z.of_nat j))%Z.
Proof using geodesic_nonneg.
  intros Hstop [Hij Hj]. unfold _calculate_waypoint_eta.
  assert (forall k, (k < length route)%nat ->
            ((Z.of_nat k <? 0) || (Z.of_nat (length route) <=? Z.of_nat k))%Z
            = false) as Hin.
  { intros k Hk. apply orb_false_iff. split;
      [apply Z.ltb_ge | apply Z.leb_gt]; lia. }
  rewrite !Hin by lia. rewrite !Nat2Z.id.
  pose proof (legs_stop_times route Hstop) as HL.
  apply py_int_mono_nonneg.
  - apply eta_fold_grows. by apply Forall_take.
  - replace j with (i + (j - i))%nat by lia.
    rewrite <- take_take_drop, fold_left_app.
    apply eta_fold_grows. by apply Forall_take, Forall_drop.
Qed.

(** X4: along a route with no negative stop time, for a distance that is
    never negative, the ETA is 0 at the first waypoint and at every
    position outside the route, and it never decreases from a waypoint to
    a later one. *)
Theorem eta_nondecreasing (route : list Waypoint) :
  Forall (fun w => (0 <= wp_estimated_time w)%Z) route ->
  _calculate_waypoint_eta geodesic route 0 = 0%Z
  /\ (forall k, (k < 0 \/ Z.of_nat (length route) <= k)%Z ->
                _calculate_waypoint_eta geodesic route k = 0%Z)
  /\ forall i j, (i <= j < length route)%nat ->
       (0 <= _calculate_waypoint_eta geodesic route (Z.of_nat i)
        <= _calculate_waypoint_eta geodesic route (Z.of_nat j))%Z.
Proof using geodesic_nonneg.
  intros Hstop. split_and!.
  - unfold _calculate_waypoint_eta. by destruct (_ || _).
  - intros k Hk. unfold _calculate_waypoint_eta.
    assert (((k <? 0) || (Z.of_nat (length route) <=? k))%Z = true) as ->.
    { apply orb_true_iff. rewrite Z.ltb_lt, Z.leb_le. done. }
    done.
  - intros i j Hij. destruct Hij as [Hi Hj].
    unfold _calculate_waypoint_eta.
    assert (forall k, (k < length route)%nat ->
              ((Z.of_nat k <? 0) || (Z.of_nat (length route) <=? Z.of_nat k))%Z
              = false) as Hin.
    { intros k Hk. apply orb_false_iff. split;
        [apply Z.ltb_ge | apply Z.leb_gt]; lia. }
    rewrite !Hin by lia. rewrite !Nat2Z.id.
    pose proof (legs_stop_times route Hstop) as HL.
    apply py_int_mono_nonneg.
    + apply eta_fold_grows. by apply Forall_take.
    + replace j with (i + (j - i))%nat by lia.
      rewrite <- take_take_drop, fold_left_app.
      apply eta_fold_grows. by apply Forall_take, Forall_drop.
Qed.

Lemma index_of_id_lookup (l : list Waypoint) (i : nat) (w : Waypoint) :
  NoDup (wp_id <$> l) -> l !! i = Some w ->
  index_of_id (wp_id w) l = Z.of_nat i.
Proof.
  revert i. induction l as [|a l IH]; intros i Hnd Hi; [done|].
  rewrite fmap_cons in Hnd. apply NoDup_cons in Hnd as [Ha Hnd].
  destruct i as [|i]; simpl in *.
  - injection Hi as ->. by rewrite decide_True.
  - rewrite decide_False.
    2:{ intros E. apply Ha. rewrite E. apply list_elem_of_fmap_2.
        apply list_elem_of_lookup. eauto. }
    rewrite (IH i) by done.
    assert ((Z.of_nat i <? 0)%Z = false) as -> by (apply Z.ltb_ge; lia).
    lia.
Qed.

(** X5: for waypoints with distinct ids, one pickup/dropoff pair per
    passenger and no negative stop time, the sequencer and the evaluator
    agree: every passenger's segment gives the positions of the pickup and
    of the dropoff in the returned route (counted from 1), the pickup comes
    first, its ETA is not later than the dropoff's, and the ride time is
    not negative. *)
Theorem segments_follow_route (waypoints : list Waypoint) constraints :
  one_pair_per_passenger waypoints ->
  NoDup (wp_id <$> waypoints) ->
  Forall (fun w => (0 <= wp_estimated_time w)%Z) waypoints ->
  exists r,
    _optimize_with_genetic_algorithm geodesic waypoints constraints
    = Returned r
    /\ forall p d,
         p ∈ waypoints -> d ∈ waypoints ->
         wp_type p = "pickup" -> wp_type d = "dropoff" ->
         wp_passenger_id p = wp_passenger_id d ->
         exists seg (i j : nat),
           _calculate_passenger_routes geodesic r waypoints
           !! wp_passenger_id p = Some seg
           /\ or_waypoints r !! i = Some p /\ or_waypoints r !! j = Some d
           /\ pickup_order seg = (Z.of_nat i + 1)%Z
           /\ dropoff_order seg = (Z.of_nat j + 1)%Z
           /\ (i < j < length waypoints)%nat
           /\ (0 <= estimated_pickup_time seg
               <= estimated_dropoff_time seg)%Z
           /\ 0 <= estimated_ride_time_minutes seg.
Proof using geodesic_nonneg.
  intros Hone Hids Hstop.
  destruct (optimized_waypoints_spec geodesic constraints waypoints Hone)
    as (out & E & Hperm & Hord & _).
  destruct (genetic_algorithm_returns _ _ _ _ E) as (r & Er & Hr).
  exists r. split; [done|]. rewrite Hr.
  intros p d Hp Hd Hpty Hdty Hid.
  pose proof Hone as (Hty & NDp & NDd & _).
  destruct (group_pickup _ _ NDp Hp Hpty) as (e & He & Hpe).
  destruct (group_dropoff _ _ Hty NDd Hd Hdty) as (e' & He' & Hde).
  rewrite <- Hid, He in He'. injection He' as <-.
  assert (p ∈ out) as Hpo by (by rewrite Hperm).
  assert (d ∈ out) as Hdo by (by rewrite Hperm).
  apply list_elem_of_lookup in Hpo as [i Hi].
  apply list_elem_of_lookup in Hdo as [j Hj].
  assert (i < j)%nat as Hij.
  { symmetry in Hperm.
    destruct (one_pair_per_passenger_perm _ _ Hperm Hone) as (_ & NDo & _).
    by apply (paired_prefix_ordered out NDo Hord i j p d). }
  assert (j < length waypoints)%nat as Hjl.
  { rewrite <- (Permutation_length Hperm). by apply lookup_lt_Some in Hj. }
  assert (NoDup (wp_id <$> out)) as Hido by (by rewrite Hperm).
  assert (Forall (fun w => (0 <= wp_estimated_time w)%Z) out) as Hso
    by (by rewrite Hperm).
  unfold _calculate_passenger_routes. rewrite lookup_omap, He. simpl.
  rewrite Hpe, Hde, Hr. eexists _, i, j. split; [done|].
  unfold passenger_route_of. simpl.
  rewrite (index_of_id_lookup out i p), (index_of_id_lookup out j d) by done.
  pose proof (eta_mono out i j Hso) as Heta.
  rewrite (Permutation_length Hperm) in Heta.
  specialize (Heta ltac:(lia)).
  repeat split; try done; try lia.
  apply py_round_nonneg. unfold Qdiv.
  apply Qmult_le_0_compat; [|done].
  change 0 with (inject_Z 0). rewrite <- Zle_Qle. lia.
Qed.

End EtaOrder.

(** ** Which passengers get a segment *)

Lemma group_pickup_iff (ws : list Waypoint) (x : string) :
  (exists e, group_by_passenger ws !! x = Some e /\ is_Some (pw_pickup e))
  <-> exists p, p ∈ ws /\ wp_type p = "pickup" /\ wp_passenger_id p = x.
Proof.
  induction ws as [|w l IH] using rev_ind.
  - split; [intros (e & He & _); unfold group_by_passenger in He;
            simpl in He; by rewrite lookup_empty in He|].
    intros (p & Hp & _). by apply elem_of_nil in Hp.
  - rewrite group_by_passenger_snoc. unfold group_step.
    destruct (decide (wp_passenger_id w = x)) as [<-|Hne].
    + rewrite lookup_insert_eq. case_decide as Hw.
      * split; [|by eexists].
        intros _. exists w. split; [|done]. apply elem_of_app. right. left.
      * split.
        -- intros (e & [= <-] & Hsome). simpl in Hsome.
           destruct (group_by_passenger l !! wp_passenger_id w) as [e0|] eqn:E0;
             simpl in Hsome; [|by destruct Hsome].
           destruct IH as [IH _].
           destruct IH as (p & Hp & ?); [by eexists|].
           exists p. split; [|done]. apply elem_of_app. by left.
        -- intros (p & Hp & Hpty & Hpid).
           apply elem_of_app in Hp as [Hp|Hp].
           2:{ apply list_elem_of_singleton in Hp as ->. done. }
           destruct IH as [_ IH]. destruct IH as (e0 & -> & Hsome); [by eauto|].
           by eexists.
    + rewrite lookup_insert_ne by done. rewrite IH. split.
      * intros (p & Hp & ?). exists p. split; [|done].
        apply elem_of_app. by left.
      * intros (p & Hp & Hpty & Hpid). exists p. split; [|done].
        apply elem_of_app in Hp as [Hp|Hp]; [done|].
        apply list_elem_of_singleton in Hp as ->. done.
Qed.

Lemma group_dropoff_iff (ws : list Waypoint) (x : string) :
  (exists e, group_by_passenger ws !! x = Some e /\ is_Some (pw_dropoff e))
  <-> exists d, d ∈ ws /\ wp_type d <> "pickup" /\ wp_passenger_id d = x.
Proof.
  induction ws as [|w l IH] using rev_ind.
  - split; [intros (e & He & _); unfold group_by_passenger in He;
            simpl in He; by rewrite lookup_empty in He|].
    intros (p & Hp & _). by apply elem_of_nil in Hp.
  - rewrite group_by_passenger_snoc. unfold group_step.
    destruct (decide (wp_passenger_id w = x)) as [<-|Hne].
    + rewrite lookup_insert_eq. case_decide as Hw.
      * split.
        -- intros (e & [= <-] & Hsome). simpl in Hsome.
           destruct (group_by_passenger l !! wp_passenger_id w) as [e0|] eqn:E0;
             simpl in Hsome; [|by destruct Hsome].
           destruct IH as [IH _].
           destruct IH as (p & Hp & ?); [by eexists|].
           exists p. split; [|done]. apply elem_of_app. by left.
        -- intros (p & Hp & Hpty & Hpid).
           apply elem_of_app in Hp as [Hp|Hp].
           2:{ apply list_elem_of_singleton in Hp as ->. done. }
           destruct IH as [_ IH]. destruct IH as (e0 & -> & Hsome); [by eauto|].
           by eexists.
      * split; [|by eexists].
        intros _. exists w. split; [|done]. apply elem_of_app. right. left.
    + rewrite lookup_insert_ne by done. rewrite IH. split.
      * intros (p & Hp & ?). exists p. split; [|done].
        apply elem_of_app. by left.
      * intros (p & Hp & Hpty & Hpid). exists p. split; [|done].
        apply elem_of_app in Hp as [Hp|Hp]; [done|].
        apply list_elem_of_singleton in Hp as ->. done.
Qed.

(** X6: a passenger gets a segment exactly when the waypoints hold a pickup
    of that passenger and a waypoint of that passenger of any other kind
    (which is taken for the dropoff); a passenger who is only picked up or
    only dropped off gets none. *)
Theorem passenger_routes_domain geodesic (optimized_route : OptimizedRoute)
    (waypoints : list Waypoint) (x : string) :
  is_Some (_calculate_passenger_routes geodesic optimized_route waypoints
           !! x)
  <-> (exists p, p ∈ waypoints /\ wp_type p = "pickup"
                 /\ wp_passenger_id p = x)
      /\ (exists d, d ∈ waypoints /\ wp_type d <> "pickup"
                    /\ wp_passenger_id d = x).
Proof.
  rewrite <- group_pickup_iff, <- group_dropoff_iff.
  unfold _calculate_passenger_routes. rewrite lookup_omap.
  destruct (group_by_passenger waypoints !! x) as [e|]; simpl.
  - split.
    + intros Hs.
      destruct (pw_pickup e) eqn:E1, (pw_dropoff e) eqn:E2;
        try (by destruct Hs).
      split; exists e; by rewrite ?E1, ?E2.
    + intros [(e1 & [= <-] & [p Hp]) (e2 & [= <-] & [d Hd])].
      by rewrite Hp, Hd.
  - split; [by intros [? ?]|]. by intros [(e & ? & _) _].
Qed.

(** ** The cache of [optimize_route] *)

Lemma efficiency_score_unit geodesic (optimized original : list Waypoint)
    (score : Q) :
  _calculate_efficiency_score geodesic optimized original = Returned score ->
  0 <= score <= 1.
Proof.
  unfold _calculate_efficiency_score, py_div.
  destruct (Qeq_bool _ 0); [by intros [= <-]|].
  destruct (Qeq_bool _ 0); simpl; [by intros [= <-]|].
  intros [= <-]. split; [apply py_max_lower|].
  rewrite py_max_spec. apply Q.max_lub; [done|]. apply py_min_upper.
Qed.

Lemma round_half_even_comp (x y : Q) :
  x == y -> round_half_even x = round_half_even y.
Proof.
  intros E. unfold round_half_even. rewrite (Qfloor_comp _ _ E).
  assert (Qcompare (x - inject_Z (Qfloor y)) (1 # 2)
          = Qcompare (y - inject_Z (Qfloor y)) (1 # 2)) as ->; [|done].
  apply Qcompare_comp; [by rewrite E | done].
Qed.

Lemma round_half_even_Z (z : Z) : round_half_even (inject_Z z) = z.
Proof.
  unfold round_half_even. rewrite Qfloor_Z.
  assert (inject_Z z - inject_Z z == 0) as E by ring.
  by rewrite (proj1 (Qlt_alt _ _)) by (by rewrite E).
Qed.

Lemma py_round_Z (z : Z) (ndigits : nat) :
  py_round (inject_Z z) ndigits == inject_Z z.
Proof.
  unfold py_round. rewrite <- inject_Z_mult, round_half_even_Z.
  rewrite inject_Z_mult. pose proof (pow10_pos ndigits).
  field. lra.
Qed.

Lemma py_round_unit (x : Q) (ndigits : nat) :
  0 <= x <= 1 -> 0 <= py_round x ndigits <= 1.
Proof.
  intros [H0 H1].
  pose proof (py_round_Z 0 ndigits) as E0.
  pose proof (py_round_Z 1 ndigits) as E1.
  change (inject_Z 0) with 0 in E0. change (inject_Z 1) with 1 in E1.
  split; [rewrite <- E0 | rewrite <- E1]; by apply py_round_mono.
Qed.

(** What the sequencing step hands on, read off a returned route. *)
Lemma genetic_algorithm_content geodesic (waypoints : list Waypoint)
    constraints (r : OptimizedRoute) :
  _optimize_with_genetic_algorithm geodesic waypoints constraints
  = Returned r ->
  length (or_waypoints r)
  = (length (pickups_of waypoints) + length (dropoffs_of waypoints))%nat
  /\ 0 <= or_efficiency_score r <= 1.
Proof.
  intros Hr.
  destruct (optimized_waypoints_returns geodesic waypoints constraints)
    as [out E].
  unfold _optimize_with_genetic_algorithm in Hr. rewrite E in Hr.
  simpl in Hr.
  destruct (_calculate_efficiency_score geodesic out waypoints)
    as [s|e|] eqn:Es; simpl in Hr; [|by destruct
      (efficiency_score_returns geodesic out waypoints) as [? ?]; congruence..].
  injection Hr as <-. simpl. split.
  - unfold optimized_waypoints_of in E. destruct (_ && _).
    + injection E as <-. by rewrite length_app.
    + by apply multi_passenger_content in E as [? _].
  - by apply efficiency_score_unit in Es.
Qed.

Section RouteCache.

Variable geodesic : Q * Q -> Q * Q -> Q.
Variable cache_key : list WaypointDict -> option Constraints -> string.

(** X7: a stored result is never served.  A result that is not the
    fallback is in the cache when [optimize_route] returns it, yet the same
    request does not get it back: [RedisClient.get] hands the entry over
    decoded, [json.loads] refuses it, and the request ends in the fallback,
    the cache staying as it is.  Any request whose key is in the cache
    ends so. *)
Theorem optimize_route_never_served_again now later redis waypoints
    constraints r redis' :
  optimize_route geodesic cache_key now redis waypoints constraints
  = Returned (r, redis') ->
  algorithm (optimization_metadata r) <> "fallback" ->
  redis' !! cache_key waypoints constraints = Some r
  /\ optimize_route geodesic cache_key later redis' waypoints constraints
     = Returned (_fallback_route_optimization later waypoints, redis')
  /\ forall store cached,
       store !! cache_key waypoints constraints = Some cached ->
       optimize_route geodesic cache_key later store waypoints constraints
       = Returned (_fallback_route_optimization later waypoints, store).
Proof.
  assert (forall store cached,
            store !! cache_key waypoints constraints = Some cached ->
            optimize_route geodesic cache_key later store waypoints
              constraints
            = Returned (_fallback_route_optimization later waypoints, store))
    as Hhit.
  { intros store cached Hc. unfold optimize_route, optimize_route_try.
    destruct (_ <? 2)%nat; [done|]. by rewrite Hc. }
  intros Hr Halg.
  assert (redis' !! cache_key waypoints constraints = Some r) as Hstored.
  { revert Hr Halg. unfold optimize_route, optimize_route_try.
    destruct (_ <? 2)%nat eqn:Elen; simpl.
    { intros [= <- <-] Halg. by destruct Halg. }
    destruct (redis !! cache_key waypoints constraints) as [cached|] eqn:Ec;
      simpl.
    { intros [= <- <-] Halg. by destruct Halg. }
    destruct (_ <? _)%Z; simpl.
    { intros [= <- <-] Halg. by destruct Halg. }
    destruct (_optimize_with_genetic_algorithm _ _ _) as [route| |]; simpl;
      [|intros [= <- <-] Halg; by destruct Halg|done].
    intros [= <- <-] _. by rewrite lookup_insert_eq. }
  split; [done|]. split; [by apply (Hhit redis' r)|done].
Qed.

(** X8: when the request is not in the cache, [optimize_route] either
    returns the fallback and leaves the cache as it was, or returns a
    computed result and stores it under the key of the request: then there
    were at least 2 waypoints and at most 4 passengers, the result lists
    one waypoint for every pickup and every dropoff sent, and its
    efficiency score lies in [0,1]. *)
Theorem optimize_route_on_miss now redis waypoints constraints r redis' :
  redis !! cache_key waypoints constraints = None ->
  optimize_route geodesic cache_key now redis waypoints constraints
  = Returned (r, redis') ->
  (r = _fallback_route_optimization now waypoints /\ redis' = redis)
  \/ (redis' = <[cache_key waypoints constraints := r]> redis
      /\ error r = None
      /\ algorithm (optimization_metadata r) = "genetic_algorithm"
      /\ (2 <= length waypoints)%nat
      /\ total_passengers (route_summary r)
         = size (passengers_of (_parse_waypoints waypoints))
      /\ (total_passengers (route_summary r) <= 4)%nat
      /\ length (optimized_waypoints r)
         = (length (pickups_of (_parse_waypoints waypoints))
            + length (dropoffs_of (_parse_waypoints waypoints)))%nat
      /\ 0 <= efficiency_score (route_summary r) <= 1).
Proof.
  intros Hmiss. unfold optimize_route, optimize_route_try.
  rewrite parse_waypoints_length, Hmiss.
  destruct (_ <? 2)%nat eqn:Elen; simpl.
  { intros [= <- <-]. by left. }
  apply Nat.ltb_ge in Elen.
  destruct (_ <? _)%Z eqn:Ecap; simpl.
  { intros [= <- <-]. by left. }
  apply Z.ltb_ge in Ecap.
  destruct (_optimize_with_genetic_algorithm _ _ _) as [route| |] eqn:Er;
    simpl; [|intros [= <- <-]; by left|done].
  apply genetic_algorithm_content in Er as [Hlen Heff].
  intros [= <- <-]. right. simpl.
  repeat split; try done.
  - unfold self_max_passengers in Ecap. lia.
  - by rewrite length_fmap.
  - by apply py_round_unit.
  - by apply py_round_unit.
Qed.

End RouteCache.

(** ** The compatibility scorer *)

Lemma py_div_Returned (a b q : Q) :
  py_div a b = Returned q -> ~ b == 0 /\ q = a / b.
Proof.
  unfold py_div. destruct (Qeq_bool b 0) eqn:E; [done|].
  intros [= <-]. split; [|done]. by apply Qeq_bool_neq.
Qed.



(** The route efficiency never raises and never takes the default of its
    [except] clause. *)
Lemma route_efficiency_value geodesic (po pd ro rd : Q * Q) :
  let direct := geodesic po pd in
  let via := geodesic po ro + geodesic ro rd + geodesic rd pd in
  _calculate_route_efficiency geodesic po pd ro rd
  = Returned (if Qeq_bool via 0 then 0 else py_min 1 (direct / via)).
Proof.
  intros direct via. unfold _calculate_route_efficiency, py_div.
  fold direct. fold via. by destruct (Qeq_bool via 0).
Qed.

(** The estimated times are the computed ones, or both the departure of
    the ride when an instant or a duration is out of range. *)
Lemma estimate_times_cases (ride_departure origin_distance
    destination_distance : Q) :
  let pickup_time := ride_departure + origin_distance / 40 * 3600 in
  let arrival_time := pickup_time + destination_distance / 40 * 3600 in
  _estimate_times ride_departure origin_distance destination_distance
  = Returned (pickup_time, arrival_time)
  \/ _estimate_times ride_departure origin_distance destination_distance
     = Returned (ride_departure, ride_departure).
Proof.
  unfold _estimate_times, timedelta_hours, datetime_add. simpl.
  repeat (destruct (_ && _); simpl; auto).
Qed.

(** A ride that leaves less than a quarter of an hour before the end of
    the year 9999 and is 40 km away: the pickup falls out of range and the
    [except] clause gives the departure for both instants. *)
Lemma estimate_times_out_of_range :
  _estimate_times (datetime_end - 800) 40 0
  = Returned (datetime_end - 800, datetime_end - 800).
Proof. by vm_compute. Qed.

Section Scorer.

Variable geodesic : Q * Q -> Q * Q -> Q.
Variable current_year : Z.

(** What a returned match is made of. *)
Lemma compatibility_inv (ride : Ride) (origin destination : Q * Q)
    (departure_time : Q) (preferences : Preferences) (m : RideMatch) :
  _calculate_compatibility geodesic current_year ride origin destination
    departure_time preferences = Some m ->
  let max_distance := default 10 (p_max_distance preferences) in
  let max_time := default 2 (p_max_time_difference preferences) in
  let max_price :=
    default (r_price_per_seat ride * (15 # 10)) (p_max_price preferences) in
  let seats_needed := default 1%Z (p_seats_needed preferences) in
  exists ro rd e,
    r_origin ride = Some ro /\ r_destination ride = Some rd
    /\ ~ max_distance == 0 /\ ~ max_time == 0 /\ ~ max_price == 0
    /\ seats_needed <> 0%Z
    /\ _calculate_route_efficiency geodesic origin destination ro rd
       = Returned e
    /\ rm_ride_id m = r_ride_id ride
    /\ rm_driver_id m = r_driver_id ride
    /\ rm_price_per_seat m = r_price_per_seat ride
    /\ rm_available_seats m = r_available_seats ride
    /\ rm_driver_rating m = r_driver_rating ride
    /\ rm_distance_from_origin m = geodesic origin ro
    /\ rm_distance_to_destination m = geodesic destination rd
    /\ rm_time_deviation m
       = Qabs ((departure_time - r_departure_time ride) / 3600)
    /\ rm_route_efficiency m = e
    /\ _estimate_times (r_departure_time ride) (geodesic origin ro)
         (geodesic destination rd)
       = Returned (rm_estimated_pickup_time m, rm_estimated_arrival_time m)
    /\ rm_compatibility_score m
       = py_max 0 (1 - (geodesic origin ro + geodesic destination rd)
                       / (2 * max_distance)) * weight_distance
         + py_max 0 (1 - rm_time_deviation m / max_time) * weight_time
         + py_max 0 (1 - py_max 0 (r_price_per_seat ride - max_price)
                         / max_price) * weight_price
         + (r_driver_rating ride - 1) / 4 * weight_driver_rating
         + _calculate_vehicle_score current_year ride
             (default (mkVehiclePrefs None None)
                (p_vehicle_preferences preferences)) * weight_vehicle
         + e * weight_route_efficiency
         + py_min 1 (inject_Z (r_available_seats ride)
                     / inject_Z seats_needed) * weight_availability.
Proof.
  intros Hm max_distance max_time max_price seats_needed.
  unfold _calculate_compatibility, _calculate_compatibility_try in Hm.
  destruct (r_origin ride) as [ro|]; [|done].
  destruct (r_destination ride) as [rd|]; [|done].
  unfold get_coords, mbind, outcome_bind, mret, outcome_ret in Hm.
  fold max_distance max_time max_price seats_needed in Hm.
  destruct (py_div _ (2 * max_distance)) as [d| |] eqn:Ed; [|done..].
  apply py_div_Returned in Ed as [Hd ->].
  destruct (py_div _ max_time) as [t| |] eqn:Et; [|done..].
  apply py_div_Returned in Et as [Ht ->].
  destruct (py_div _ max_price) as [p| |] eqn:Ep; [|done..].
  apply py_div_Returned in Ep as [Hp ->].
  destruct (_calculate_route_efficiency _ _ _ _ _) as [e| |] eqn:Ee;
    [|done..].
  destruct (py_div _ (inject_Z seats_needed)) as [a| |] eqn:Ea; [|done..].
  apply py_div_Returned in Ea as [Ha ->].
  destruct (_estimate_times _ _ _) as [[pickup_time arrival_time]| |]
    eqn:Etimes; [|done..].
  injection Hm as <-.
  exists ro, rd, e. simpl.
  repeat split; try done.
  - intros E. apply Hd. rewrite E. ring.
  - intros E. apply Ha. by rewrite E.
Qed.

End Scorer.

Lemma py_max_zero_unit (x : Q) : 0 <= x -> 0 <= py_max 0 (1 - x) <= 1.
Proof.
  intros Hx. split; [apply py_max_lower|].
  rewrite py_max_spec. apply Q.max_lub; lra.
Qed.

Lemma py_min_one_unit (x : Q) : 0 <= x -> 0 <= py_min 1 x <= 1.
Proof.
  intros Hx. split; [|apply py_min_upper].
  rewrite py_min_spec. apply Q.min_glb; lra.
Qed.

Lemma Qdiv_nonneg (a b : Q) : 0 <= a -> 0 < b -> 0 <= a / b.
Proof.
  intros Ha Hb. apply Qle_shift_div_l; [done|]. by rewrite Qmult_0_l.
Qed.

Lemma vehicle_score_unit current_year ride vehicle_prefs :
  0 <= _calculate_vehicle_score current_year ride vehicle_prefs <= 1.
Proof.
  unfold _calculate_vehicle_score.
  destruct (vp_preferred_types _), (vp_max_age _); try done;
    destruct (_ <? _)%Z; done.
Qed.

Section ScorerBounds.

Variable geodesic : Q * Q -> Q * Q -> Q.
Hypothesis geodesic_nonneg : forall a b, 0 <= geodesic a b.
Variable current_year : Z.

Lemma route_efficiency_unit (po pd ro rd : Q * Q) (e : Q) :
  _calculate_route_efficiency geodesic po pd ro rd = Returned e ->
  0 <= e <= 1.
Proof using geodesic_nonneg.
  rewrite route_efficiency_value. intros [= <-].
  destruct (Qeq_bool _ 0) eqn:E; [done|]. apply Qeq_bool_neq in E.
  apply py_min_one_unit. apply Qdiv_nonneg; [done|].
  pose proof (geodesic_nonneg po ro). pose proof (geodesic_nonneg ro rd).
  pose proof (geodesic_nonneg rd pd).
  destruct (Qlt_le_dec 0 (geodesic po ro + geodesic ro rd + geodesic rd pd))
    as [?|Hle]; [done|].
  destruct E. lra.
Qed.

(** The weighted sum of seven scores between 0 and 1 lies between 0 and
    1: the weights add up to 1. *)
Lemma weighted_score_unit (distance time price rating vehicle route
    availability : Q) :
  0 <= distance <= 1 -> 0 <= time <= 1 -> 0 <= price <= 1 ->
  0 <= rating <= 1 -> 0 <= vehicle <= 1 -> 0 <= route <= 1 ->
  0 <= availability <= 1 ->
  0 <= distance * weight_distance + time * weight_time
       + price * weight_price + rating * weight_driver_rating
       + vehicle * weight_vehicle + route * weight_route_efficiency
       + availability * weight_availability <= 1.
Proof.
  unfold weight_distance, weight_time, weight_price, weight_driver_rating,
    weight_vehicle, weight_route_efficiency, weight_availability.
  intros [? ?] [? ?] [? ?] [? ?] [? ?] [? ?] [? ?]. lra.
Qed.

(** The fields of a returned match that the dictionary rounds. *)
Lemma match_fields_bounded (ride : Ride) (origin destination : Q * Q)
    (departure_time : Q) (preferences : Preferences) (m : RideMatch) :
  _calculate_compatibility geodesic current_year ride origin destination
    departure_time preferences = Some m ->
  0 < default 10 (p_max_distance preferences) ->
  0 < default 2 (p_max_time_difference preferences) ->
  (0 < default 1 (p_seats_needed preferences))%Z ->
  0 < default (r_price_per_seat ride * (15 # 10)) (p_max_price preferences) ->
  (0 <= r_available_seats ride)%Z ->
  1 <= r_driver_rating ride <= 5 ->
  0 <= rm_compatibility_score m <= 1
  /\ 0 <= rm_route_efficiency m <= 1
  /\ 0 <= rm_distance_from_origin m
  /\ 0 <= rm_distance_to_destination m
  /\ 0 <= rm_time_deviation m
  /\ 1 <= rm_driver_rating m <= 5.
Proof using geodesic_nonneg.
  intros Hm Hd Ht Hn Hp Hs Hr.
  destruct (compatibility_inv _ _ _ _ _ _ _ _ Hm)
    as (ro & rd & e & _ & _ & _ & _ & _ & _ & He & _ & _ & _ & _ & Hrt & Ho
        & Hdd & Htd & Hre & _ & Hscore).
  apply route_efficiency_unit in He.
  pose proof (geodesic_nonneg origin ro).
  pose proof (geodesic_nonneg destination rd).
  rewrite Hre, Ho, Hdd, Hrt, Htd.
  split; [|repeat split; try done; try apply Qabs_nonneg; apply He || apply Hr].
  rewrite Hscore, Htd. apply weighted_score_unit; try done.
  - apply py_max_zero_unit, Qdiv_nonneg; lra.
  - apply py_max_zero_unit, Qdiv_nonneg; [apply Qabs_nonneg|done].
  - apply py_max_zero_unit, Qdiv_nonneg; [apply py_max_lower|done].
  - split; [apply Qdiv_nonneg; lra | apply Qle_shift_div_r; lra].
  - apply vehicle_score_unit.
  - apply py_min_one_unit, Qdiv_nonneg.
    + change 0 with (inject_Z 0). by rewrite <- Zle_Qle.
    + change 0 with (inject_Z 0). by rewrite <- Zlt_Qlt.
Qed.

(** X9: for positive preference bounds, a rating between 1 and 5 and a
    non-negative number of seats, the compatibility score of a returned
    match lies in [0,1], and so does its route efficiency. *)
Theorem compatibility_score_unit (ride : Ride) (origin destination : Q * Q)
    (departure_time : Q) (preferences : Preferences) (m : RideMatch) :
  _calculate_compatibility geodesic current_year ride origin destination
    departure_time preferences = Some m ->
  0 < default 10 (p_max_distance preferences) ->
  0 < default 2 (p_max_time_difference preferences) ->
  0 < default (r_price_per_seat ride * (15 # 10)) (p_max_price preferences) ->
  (0 < default 1 (p_seats_needed preferences))%Z ->
  (0 <= r_available_seats ride)%Z ->
  1 <= r_driver_rating ride <= 5 ->
  0 <= rm_compatibility_score m <= 1
  /\ 0 <= rm_route_efficiency m <= 1.
Proof using geodesic_nonneg.
  intros Hm Hd Ht Hp Hn Hs Hr.
  destruct (compatibility_inv _ _ _ _ _ _ _ _ Hm)
    as (ro & rd & e & _ & _ & _ & _ & _ & _ & He & _ & _ & _ & _ & _ & _ & _
        & Htd & Hre & _ & Hscore).
  apply route_efficiency_unit in He.
  split; [|by rewrite Hre].
  rewrite Hscore, Htd.
  pose proof (py_max_zero_unit
                ((geodesic origin ro + geodesic destination rd)
                 / (2 * default 10 (p_max_distance preferences)))) as B1.
  pose proof (py_max_zero_unit
                (Qabs ((departure_time - r_departure_time ride) / 3600)
                 / default 2 (p_max_time_difference preferences))) as B2.
  pose proof (py_max_zero_unit
                (py_max 0 (r_price_per_seat ride
                           - default (r_price_per_seat ride * (15 # 10))
                               (p_max_price preferences))
                 / default (r_price_per_seat ride * (15 # 10))
                     (p_max_price preferences))) as B3.
  pose proof (py_min_one_unit
                (inject_Z (r_available_seats ride)
                 / inject_Z (default 1%Z (p_seats_needed preferences)))) as B4.
  pose proof (vehicle_score_unit current_year ride
                (default (mkVehiclePrefs None None)
                   (p_vehicle_preferences preferences))) as B5.
  pose proof (geodesic_nonneg origin ro).
  pose proof (geodesic_nonneg destination rd).
  assert (0 <= (r_driver_rating ride - 1) / 4 <= 1) as B6.
  { split; [apply Qdiv_nonneg; lra | apply Qle_shift_div_r; lra]. }
  destruct B1 as [? ?]; [apply Qdiv_nonneg; lra|].
  destruct B2 as [? ?]; [apply Qdiv_nonneg; [apply Qabs_nonneg|done]|].
  destruct B3 as [? ?]; [apply Qdiv_nonneg; [apply py_max_lower|done]|].
  destruct B4 as [? ?].
  { apply Qdiv_nonneg.
    - change 0 with (inject_Z 0). by rewrite <- Zle_Qle.
    - change 0 with (inject_Z 0). by rewrite <- Zlt_Qlt. }
  unfold weight_distance, weight_time, weight_price, weight_driver_rating,
    weight_vehicle, weight_route_efficiency, weight_availability.
  lra.
Qed.

(** X11: the estimated times of a returned match are those that
    [_estimate_times] gives for the departure of the ride and the two
    distances of the match, whether it computes them or, an instant or a
    duration being out of range, falls back to the departure for both: the
    estimated pickup is not before the departure of the ride, and the
    estimated arrival is not before the pickup.  The two distances and the
    time deviation of the match are not negative. *)
Theorem estimated_times_ordered (ride : Ride) (origin destination : Q * Q)
    (departure_time : Q) (preferences : Preferences) (m : RideMatch) :
  _calculate_compatibility geodesic current_year ride origin destination
    departure_time preferences = Some m ->
  r_departure_time ride <= rm_estimated_pickup_time m
  /\ rm_estimated_pickup_time m <= rm_estimated_arrival_time m
  /\ _estimate_times (r_departure_time ride) (rm_distance_from_origin m)
       (rm_distance_to_destination m)
     = Returned (rm_estimated_pickup_time m, rm_estimated_arrival_time m)
  /\ 0 <= rm_distance_from_origin m
  /\ 0 <= rm_distance_to_destination m
  /\ 0 <= rm_time_deviation m.
Proof using geodesic_nonneg.
  intros Hm.
  destruct (compatibility_inv _ _ _ _ _ _ _ _ Hm)
    as (ro & rd & e & _ & _ & _ & _ & _ & _ & _ & _ & _ & _ & _ & _ & Ho & Hd
        & Htd & _ & Htimes & _).
  rewrite Ho, Hd, Htd.
  pose proof (geodesic_nonneg origin ro).
  pose proof (geodesic_nonneg destination rd).
  assert (0 <= geodesic origin ro / 40 * 3600)
    by (apply Qmult_le_0_compat; [by apply Qdiv_nonneg|done]).
  assert (0 <= geodesic destination rd / 40 * 3600)
    by (apply Qmult_le_0_compat; [by apply Qdiv_nonneg|done]).
  destruct (estimate_times_cases (r_departure_time ride)
              (geodesic origin ro) (geodesic destination rd)) as [E|E];
    rewrite E in Htimes; injection Htimes as <- <-.
  - split_and!; try done; try lra. apply Qabs_nonneg.
  - split_and!; try done; try lra. apply Qabs_nonneg.
Qed.

End ScorerBounds.


(** ** The ranked list *)

Lemma StronglySorted_take_drop {A} (R : relation A) (n : nat) (l : list A) :
  StronglySorted R l ->
  forall a b, a ∈ take n l -> b ∈ drop n l -> R a b.
Proof.
  intros H. revert n. induction H as [|x l Hs IH Hx]; intros n a b Ha Hb.
  - rewrite take_nil in Ha. by apply elem_of_nil in Ha.
  - destruct n as [|n]; simpl in *; [by apply elem_of_nil in Ha|].
    apply elem_of_cons in Ha as [->|Ha]; [|by apply (IH n)].
    rewrite Forall_forall in Hx. apply Hx.
    by apply (subseteq_drop n l).
Qed.

Lemma length_omap_le {A B} (f : A -> option B) (l : list A) :
  (length (omap f l) <= length l)%nat.
Proof.
  induction l as [|x l IH]; simpl; [done|].
  unfold omap in IH. destruct (f x); simpl; lia.
Qed.

Section Ranking.

Variable geodesic : Q * Q -> Q * Q -> Q.
Variable current_year : Z.
Variable cache_key : Q * Q -> Q * Q -> string -> Preferences -> string.
Variable fromisoformat : string -> outcome Q.
Variable get_rides : Q -> Preferences -> list Ride.

Abbreviation find' :=
  (find_matches geodesic current_year cache_key fromisoformat get_rides).

(** X13: when the answer is computed, every result of [find_matches]
    stands for one of the available rides, one that has both its
    coordinates: it carries the id, the driver, the price and the seats of
    that ride; there are no more results than rides. *)
Theorem find_matches_from_rides redis origin destination departure_time
    preferences departure_dt :
  redis !! cache_key origin destination departure_time preferences = None
  \/ redis !! cache_key origin destination departure_time preferences
     = Some [] ->
  fromisoformat departure_time = Returned departure_dt ->
  exists result redis',
    find' redis origin destination departure_time preferences
    = Returned (result, redis')
    /\ (length result <= length (get_rides departure_dt preferences))%nat
    /\ forall d, d ∈ result ->
         exists ride, ride ∈ get_rides departure_dt preferences
           /\ md_ride_id d = r_ride_id ride
           /\ md_driver_id d = r_driver_id ride
           /\ md_price_per_seat d = r_price_per_seat ride
           /\ md_available_seats d = r_available_seats ride
           /\ is_Some (r_origin ride) /\ is_Some (r_destination ride).
Proof.
  intros Hmiss Hparse.
  destruct (find_matches_computed geodesic current_year cache_key
              fromisoformat get_rides redis origin destination
              departure_time preferences departure_dt Hmiss Hparse)
    as [redis' E].
  eexists _, redis'. split; [exact E|].
  set (rides := get_rides departure_dt preferences).
  set (ms := matches_of geodesic current_year rides origin destination
               departure_dt preferences).
  split.
  - rewrite length_fmap, length_take.
    rewrite (Permutation_length (sort_reverse_perm _ _)).
    pose proof (length_omap_le
                  (fun ride =>
                     match _calculate_compatibility geodesic current_year
                             ride origin destination departure_dt
                             preferences with
                     | Some m =>
                         if Qltb threshold (rm_compatibility_score m)
                         then Some m else None
                     | None => None
                     end) rides) as Hle.
    unfold ms, matches_of. lia.
  - intros d Hd. apply list_elem_of_fmap in Hd as (m & -> & Hm).
    apply subseteq_take in Hm. rewrite sort_reverse_perm in Hm.
    unfold ms, matches_of in Hm.
    apply list_elem_of_omap in Hm as (ride & Hride & Hscore).
    destruct (_calculate_compatibility _ _ _ _ _ _ _) as [m'|] eqn:Em;
      [|done].
    destruct (Qltb _ _); [|done]. injection Hscore as ->.
    destruct (compatibility_inv _ _ _ _ _ _ _ _ Em)
      as (ro & rd & e & Ho & Hdst & _ & _ & _ & _ & _ & Hid & Hdr & Hpr & Hse
          & _).
    exists ride. simpl. rewrite Ho, Hdst. by repeat split.
Qed.

(** X14: the results kept are the best ones: when the answer is computed,
    the list returned is the first 20 of the scored matches sorted by
    score, no match left out scores higher than a match kept, and with 20
    matches or fewer none is left out. *)
Theorem find_matches_keeps_best redis origin destination departure_time
    preferences departure_dt :
  redis !! cache_key origin destination departure_time preferences = None
  \/ redis !! cache_key origin destination departure_time preferences
     = Some [] ->
  fromisoformat departure_time = Returned departure_dt ->
  let qualifying :=
    matches_of geodesic current_year (get_rides departure_dt preferences)
      origin destination departure_dt preferences in
  exists ranked redis',
    find' redis origin destination departure_time preferences
    = Returned (_match_to_dict <$> take 20 ranked, redis')
    /\ ranked ≡ₚ qualifying
    /\ (forall kept left_out,
          kept ∈ take 20 ranked -> left_out ∈ drop 20 ranked ->
          rm_compatibility_score left_out <= rm_compatibility_score kept)
    /\ ((length qualifying <= 20)%nat -> take 20 ranked ≡ₚ qualifying).
Proof.
  intros Hmiss Hparse qualifying.
  destruct (find_matches_computed geodesic current_year cache_key
              fromisoformat get_rides redis origin destination
              departure_time preferences departure_dt Hmiss Hparse)
    as [redis' E].
  exists (sort_reverse rm_compatibility_score qualifying), redis'.
  split; [exact E|]. split; [apply sort_reverse_perm|]. split.
  - intros kept left_out Hk Hl.
    by apply (StronglySorted_take_drop
                (fun a b => rm_compatibility_score b
                            <= rm_compatibility_score a) 20
                (sort_reverse rm_compatibility_score qualifying)
                (sort_reverse_sorted _ _)).
  - intros Hlen. rewrite take_ge; [apply sort_reverse_perm|].
    by rewrite (Permutation_length (sort_reverse_perm _ _)).
Qed.

End Ranking.

(** X16: a non-empty list that [find_matches] returns is in the cache
    afterwards: as long as the cache keeps the entry, the same request gets
    the list again, without the departure time being parsed or the rides
    being read, and the cache stays as it is. *)
Theorem find_matches_served_again geodesic current_year cache_key
    fromisoformat get_rides fromisoformat' get_rides'
    redis origin destination departure_time preferences result redis' :
  find_matches geodesic current_year cache_key fromisoformat get_rides
    redis origin destination departure_time preferences
  = Returned (result, redis') ->
  result <> [] ->
  find_matches geodesic current_year cache_key fromisoformat' get_rides'
    redis' origin destination departure_time preferences
  = Returned (result, redis').
Proof.
  unfold find_matches.
  destruct (redis !! cache_key origin destination departure_time preferences)
    as [[|m cached]|] eqn:Ec.
  - destruct (fromisoformat departure_time) as [dt| |]; simpl; [|done..].
    destruct (get_rides dt preferences); [by intros [= <- <-]|].
    intros [= <- <-] Hne. rewrite lookup_insert_eq.
    by destruct (_ <$> _).
  - intros [= <- <-] _. by rewrite Ec.
  - destruct (fromisoformat departure_time) as [dt| |]; simpl; [|done..].
    destruct (get_rides dt preferences); [by intros [= <- <-]|].
    intros [= <- <-] Hne. rewrite lookup_insert_eq.
    by destruct (_ <$> _).
Qed.

(** X12: when the answer is computed, for a distance that is never
    negative, positive preference bounds, and rides with a rating between
    1 and 5 and no negative number of seats, every dictionary that
    [find_matches] returns has a compatibility score between 0.3 and 1, a
    route efficiency between 0 and 1, a rating between 1 and 5, and no
    negative distance or time deviation: the rounding of [_match_to_dict]
    keeps the values in their ranges. *)
Theorem find_matches_fields_in_range geodesic current_year cache_key
    fromisoformat get_rides redis origin destination departure_time
    preferences departure_dt :
  (forall a b, 0 <= geodesic a b) ->
  redis !! cache_key origin destination departure_time preferences = None
  \/ redis !! cache_key origin destination departure_time preferences
     = Some [] ->
  fromisoformat departure_time = Returned departure_dt ->
  0 < default 10 (p_max_distance preferences) ->
  0 < default 2 (p_max_time_difference preferences) ->
  (0 < default 1 (p_seats_needed preferences))%Z ->
  Forall (fun ride =>
            0 < default (r_price_per_seat ride * (15 # 10))
                        (p_max_price preferences)
            /\ (0 <= r_available_seats ride)%Z
            /\ 1 <= r_driver_rating ride <= 5)
         (get_rides departure_dt preferences) ->
  exists result redis',
    find_matches geodesic current_year cache_key fromisoformat get_rides
      redis origin destination departure_time preferences
    = Returned (result, redis')
    /\ Forall (fun d =>
                 threshold <= md_compatibility_score d <= 1
                 /\ 0 <= md_route_efficiency d <= 1
                 /\ 1 <= md_driver_rating d <= 5
                 /\ 0 <= md_distance_from_origin d
                 /\ 0 <= md_distance_to_destination d
                 /\ 0 <= md_time_deviation_hours d)
              result.
Proof.
  intros Hnn Hmiss Hparse Hd Ht Hn Hrides.
  destruct (find_matches_computed geodesic current_year cache_key
              fromisoformat get_rides redis origin destination
              departure_time preferences departure_dt Hmiss Hparse)
    as [redis' E].
  eexists _, redis'. split; [exact E|].
  apply Forall_forall. intros d Hin.
  apply list_elem_of_fmap in Hin as (m & -> & Hm).
  apply subseteq_take in Hm. rewrite sort_reverse_perm in Hm.
  unfold matches_of in Hm.
  apply list_elem_of_omap in Hm as (ride & Hride & Hscore).
  destruct (_calculate_compatibility _ _ _ _ _ _ _) as [m'|] eqn:Em;
    [|done].
  destruct (Qltb _ _) eqn:Ethr; [|done]. injection Hscore as ->.
  apply Qltb_lt in Ethr.
  rewrite Forall_forall in Hrides.
  destruct (Hrides ride Hride) as (Hp & Hs & Hr).
  destruct (match_fields_bounded geodesic Hnn current_year ride origin
              destination departure_dt preferences m Em Hd Ht Hn Hp Hs Hr)
    as ([_ Hs1] & Heff & Hdo & Hdd & Htd & [Hr1 Hr5]).
  pose proof (fun n => py_round_Z 0 n) as R0.
  pose proof (fun n => py_round_Z 1 n) as R1.
  pose proof (py_round_Z 5 1) as R5.
  change (inject_Z 0) with 0 in R0. change (inject_Z 1) with 1 in R1.
  change (inject_Z 5) with 5 in R5.
  simpl. split_and!.
  - rewrite <- py_round_threshold. apply py_round_mono.
    by apply Qlt_le_weak.
  - rewrite <- (R1 3%nat). by apply py_round_mono.
  - by apply py_round_unit.
  - by apply py_round_unit.
  - rewrite <- (R1 1%nat). by apply py_round_mono.
  - rewrite <- R5. by apply py_round_mono.
  - rewrite <- (R0 2%nat). by apply py_round_mono.
  - rewrite <- (R0 2%nat). by apply py_round_mono.
  - rewrite <- (R0 2%nat). by apply py_round_mono.
Qed.

(** X17: the route efficiency of the scorer never raises and never takes
    the 0.5 of its [except] clause: it is 0 when the way via the ride has
    length 0 and [min(1, direct / via)] otherwise, so it lies in [0,1] for
    a distance that is never negative. *)
Theorem route_efficiency_never_default geodesic (po pd ro rd : Q * Q) :
  (forall a b, 0 <= geodesic a b) ->
  let direct := geodesic po pd in
  let via := geodesic po ro + geodesic ro rd + geodesic rd pd in
  exists e,
    _calculate_route_efficiency geodesic po pd ro rd = Returned e
    /\ 0 <= e <= 1
    /\ (via == 0 -> e = 0)
    /\ (~ via == 0 -> e == Qmin 1 (direct / via)).
Proof.
  intros Hnn direct via. eexists. split; [apply route_efficiency_value|].
  fold direct. fold via. split; [|split].
  - apply (route_efficiency_unit geodesic Hnn po pd ro rd).
    apply route_efficiency_value.
  - intros E. by rewrite (Qeq_eq_bool _ _ E).
  - intros E. destruct (Qeq_bool via 0) eqn:Eb.
    + by apply Qeq_bool_eq in Eb.
    + apply py_min_spec.
Qed.

(** ** Callers *)

Section CallerFacts.

Variable geodesic : Q * Q -> Q * Q -> Q.
Variable cache_key : list WaypointDict -> option Constraints -> string.
Variable now : string.

Lemma alternatives_from_spec (n i : nat) redis waypoints :
  exists alternatives redis',
    alternatives_from geodesic cache_key now i n redis waypoints
    = Returned (alternatives, redis')
    /\ alt_alternative_id <$> alternatives
       = (fun k => (Z.of_nat k + 1)%Z) <$> seq i n
    /\ ((length waypoints < 2)%nat ->
        redis' = redis
        /\ Forall (fun a => alt_result a
                            = _fallback_route_optimization now waypoints)
                  alternatives).
Proof.
  revert i redis. induction n as [|n IH]; intros i redis; simpl.
  - eexists [], redis. by repeat split.
  - destruct (optimize_route_total geodesic cache_key now redis waypoints
                (Some (modified_constraints i))) as (r & redis1 & Er).
    rewrite Er. simpl.
    destruct (IH (S i) redis1) as (alts & redis2 & -> & Hids & Hshort).
    simpl. eexists _, redis2. split; [done|]. split.
    + by rewrite fmap_cons, Hids.
    + intros Hlen. destruct (Hshort Hlen) as [-> Hall].
      unfold optimize_route in Er.
      rewrite too_few_raises in Er by done. simpl in Er.
      injection Er as <- <-. split; [done|]. by constructor.
Qed.

(** X18: [get_route_alternatives] never raises and returns as many
    alternatives as asked for (none for a negative number), numbered from
    1 in order; with fewer than 2 waypoints every alternative is the
    fallback and the cache is left as it was. *)
Theorem route_alternatives_numbered redis waypoints (num_alternatives : Z) :
  exists alternatives redis',
    get_route_alternatives geodesic cache_key now redis waypoints
      num_alternatives
    = Returned (alternatives, redis')
    /\ length alternatives = Z.to_nat num_alternatives
    /\ alt_alternative_id <$> alternatives
       = (fun k => (Z.of_nat k + 1)%Z) <$> seq 0 (Z.to_nat num_alternatives)
    /\ ((length waypoints < 2)%nat ->
        redis' = redis
        /\ Forall (fun a => alt_result a
                            = _fallback_route_optimization now waypoints)
                  alternatives).
Proof.
  unfold get_route_alternatives.
  destruct (alternatives_from_spec (Z.to_nat num_alternatives) 0 redis
              waypoints) as (alts & redis' & -> & Hids & Hshort).
  exists alts, redis'. split; [done|]. split; [|done].
  apply (f_equal length) in Hids.
  by rewrite !length_fmap, length_seq in Hids.
Qed.

End CallerFacts.

(** ** The further properties on concrete inputs *)

Lemma absent_passenger_ids_distinct_witness :
  size (passengers_of (_parse_waypoints anonymous_pickups))
  = length anonymous_pickups
  /\ ((∅ : gmap string RouteResult) !! example_key anonymous_pickups None
      = None ->
      (5 <= length anonymous_pickups)%nat ->
      optimize_route taxicab example_key example_now ∅ anonymous_pickups None
      = Returned (_fallback_route_optimization example_now anonymous_pickups,
                  ∅)).
Proof.
  apply (absent_passenger_ids_distinct taxicab example_key example_now ∅
           anonymous_pickups None).
  by repeat constructor.
Defined.

Lemma eta_nondecreasing_witness :
  _calculate_waypoint_eta taxicab two_passengers 0 = 0%Z
  /\ (forall k, (k < 0 \/ Z.of_nat (length two_passengers) <= k)%Z ->
                _calculate_waypoint_eta taxicab two_passengers k = 0%Z)
  /\ forall i j, (i <= j < length two_passengers)%nat ->
       (0 <= _calculate_waypoint_eta taxicab two_passengers (Z.of_nat i)
        <= _calculate_waypoint_eta taxicab two_passengers (Z.of_nat j))%Z.
Proof.
  apply (eta_nondecreasing taxicab taxicab_nonneg two_passengers).
  by repeat constructor.
Defined.

Lemma segments_follow_route_witness :
  exists r,
    _optimize_with_genetic_algorithm taxicab two_passengers no_constraints
    = Returned r
    /\ forall p d,
         p ∈ two_passengers -> d ∈ two_passengers ->
         wp_type p = "pickup" -> wp_type d = "dropoff" ->
         wp_passenger_id p = wp_passenger_id d ->
         exists seg (i j : nat),
           _calculate_passenger_routes taxicab r two_passengers
           !! wp_passenger_id p = Some seg
           /\ or_waypoints r !! i = Some p /\ or_waypoints r !! j = Some d
           /\ pickup_order seg = (Z.of_nat i + 1)%Z
           /\ dropoff_order seg = (Z.of_nat j + 1)%Z
           /\ (i < j < length two_passengers)%nat
           /\ (0 <= estimated_pickup_time seg
               <= estimated_dropoff_time seg)%Z
           /\ 0 <= estimated_ride_time_minutes seg.
Proof.
  apply (segments_follow_route taxicab taxicab_nonneg two_passengers
           no_constraints).
  - apply (bool_decide_unpack _). by vm_compute.
  - apply (bool_decide_unpack _). by vm_compute.
  - by repeat constructor.
Defined.

Lemma optimize_route_never_served_again_witness :
  exists r redis',
    optimize_route taxicab example_key example_now ∅ two_passenger_request
      None = Returned (r, redis')
    /\ redis' !! example_key two_passenger_request None = Some r
    /\ optimize_route taxicab example_key "2025-01-22T00:00:00" redis'
         two_passenger_request None
       = Returned (_fallback_route_optimization "2025-01-22T00:00:00"
                     two_passenger_request, redis')
    /\ forall store cached,
         store !! example_key two_passenger_request None = Some cached ->
         optimize_route taxicab example_key "2025-01-22T00:00:00" store
           two_passenger_request None
         = Returned (_fallback_route_optimization "2025-01-22T00:00:00"
                       two_passenger_request, store).
Proof.
  eexists _, _. split; [vm_compute; reflexivity|].
  apply (optimize_route_never_served_again taxicab example_key example_now
           "2025-01-22T00:00:00" ∅ two_passenger_request None).
  - vm_compute. reflexivity.
  - by vm_compute.
Defined.

Lemma optimize_route_on_miss_witness :
  exists r redis',
    optimize_route taxicab example_key example_now ∅ two_passenger_request
      None = Returned (r, redis')
    /\ ((r = _fallback_route_optimization example_now two_passenger_request
         /\ redis' = ∅)
        \/ (redis' = <[example_key two_passenger_request None := r]> ∅
            /\ error r = None
            /\ algorithm (optimization_metadata r) = "genetic_algorithm"
            /\ (2 <= length two_passenger_request)%nat
            /\ total_passengers (route_summary r)
               = size (passengers_of
                         (_parse_waypoints two_passenger_request))
            /\ (total_passengers (route_summary r) <= 4)%nat
            /\ length (optimized_waypoints r)
               = (length (pickups_of
                            (_parse_waypoints two_passenger_request))
                  + length (dropoffs_of
                              (_parse_waypoints two_passenger_request)))%nat
            /\ 0 <= efficiency_score (route_summary r) <= 1)).
Proof.
  eexists _, _. split; [vm_compute; reflexivity|].
  apply (optimize_route_on_miss taxicab example_key example_now ∅
           two_passenger_request None).
  - reflexivity.
  - vm_compute. reflexivity.
Defined.

Lemma compatibility_score_unit_witness :
  exists m,
    _calculate_compatibility taxicab 2025 far_ride (0, 0) (0, 0) 0
      no_preferences = Some m
    /\ 0 <= rm_compatibility_score m <= 1
    /\ 0 <= rm_route_efficiency m <= 1.
Proof.
  eexists. split; [vm_compute; reflexivity|].
  apply (compatibility_score_unit taxicab taxicab_nonneg 2025 far_ride
           (0, 0) (0, 0) 0 no_preferences); by vm_compute.
Defined.

Lemma estimated_times_ordered_witness :
  exists m,
    _calculate_compatibility taxicab 2025 far_ride (0, 0) (0, 0) 0
      no_preferences = Some m
    /\ r_departure_time far_ride <= rm_estimated_pickup_time m
    /\ rm_estimated_pickup_time m <= rm_estimated_arrival_time m
    /\ _estimate_times (r_departure_time far_ride)
         (rm_distance_from_origin m) (rm_distance_to_destination m)
       = Returned (rm_estimated_pickup_time m, rm_estimated_arrival_time m)
    /\ 0 <= rm_distance_from_origin m
    /\ 0 <= rm_distance_to_destination m
    /\ 0 <= rm_time_deviation m.
Proof.
  eexists. split; [vm_compute; reflexivity|].
  apply (estimated_times_ordered taxicab taxicab_nonneg 2025 far_ride
           (0, 0) (0, 0) 0 no_preferences).
  vm_compute. reflexivity.
Defined.

Lemma find_matches_from_rides_witness :
  exists result redis',
    find_matches taxicab 2025 example_match_key example_fromisoformat
      (fun _ _ => tied_rides) ∅ (0, 0) (0, 0) "2025-01-21T08:00:00"
      no_preferences
    = Returned (result, redis')
    /\ (length result <= length tied_rides)%nat
    /\ forall d, d ∈ result ->
         exists ride, ride ∈ tied_rides
           /\ md_ride_id d = r_ride_id ride
           /\ md_driver_id d = r_driver_id ride
           /\ md_price_per_seat d = r_price_per_seat ride
           /\ md_available_seats d = r_available_seats ride
           /\ is_Some (r_origin ride) /\ is_Some (r_destination ride).
Proof.
  apply (find_matches_from_rides taxicab 2025 example_match_key
           example_fromisoformat (fun _ _ => tied_rides) ∅ (0, 0) (0, 0)
           "2025-01-21T08:00:00" no_preferences 0).
  - left. reflexivity.
  - reflexivity.
Defined.

Lemma find_matches_keeps_best_witness :
  let qualifying :=
    matches_of taxicab 2025 tied_rides (0, 0) (0, 0) 0 no_preferences in
  exists ranked redis',
    find_matches taxicab 2025 example_match_key example_fromisoformat
      (fun _ _ => tied_rides) ∅ (0, 0) (0, 0) "2025-01-21T08:00:00"
      no_preferences
    = Returned (_match_to_dict <$> take 20 ranked, redis')
    /\ ranked ≡ₚ qualifying
    /\ (forall kept left_out,
          kept ∈ take 20 ranked -> left_out ∈ drop 20 ranked ->
          rm_compatibility_score left_out <= rm_compatibility_score kept)
    /\ ((length qualifying <= 20)%nat -> take 20 ranked ≡ₚ qualifying).
Proof.
  apply (find_matches_keeps_best taxicab 2025 example_match_key
           example_fromisoformat (fun _ _ => tied_rides) ∅ (0, 0) (0, 0)
           "2025-01-21T08:00:00" no_preferences 0).
  - left. reflexivity.
  - reflexivity.
Defined.

Lemma find_matches_served_again_witness :
  exists result redis',
    find_matches taxicab 2025 example_match_key example_fromisoformat
      (fun _ _ => tied_rides) ∅ (0, 0) (0, 0) "2025-01-21T08:00:00"
      no_preferences
    = Returned (result, redis')
    /\ find_matches taxicab 2025 example_match_key
         (fun _ => Raised (ValueError "Invalid isoformat string"))
         (fun _ _ => []) redis' (0, 0) (0, 0) "2025-01-21T08:00:00"
         no_preferences
       = Returned (result, redis').
Proof.
  eexists _, _. split; [vm_compute; reflexivity|].
  apply (find_matches_served_again taxicab 2025 example_match_key
           example_fromisoformat (fun _ _ => tied_rides)
           (fun _ => Raised (ValueError "Invalid isoformat string"))
           (fun _ _ => []) ∅ (0, 0) (0, 0) "2025-01-21T08:00:00"
           no_preferences).
  - vm_compute. reflexivity.
  - by vm_compute.
Defined.

Lemma route_efficiency_never_default_witness :
  exists e,
    _calculate_route_efficiency taxicab (0, 0) (0, 5) (0, 1) (0, 4)
    = Returned e
    /\ 0 <= e <= 1
    /\ (taxicab (0, 0) (0, 1) + taxicab (0, 1) (0, 4)
        + taxicab (0, 4) (0, 5) == 0 -> e = 0)
    /\ (~ taxicab (0, 0) (0, 1) + taxicab (0, 1) (0, 4)
          + taxicab (0, 4) (0, 5) == 0 ->
        e == Qmin 1 (taxicab (0, 0) (0, 5)
                     / (taxicab (0, 0) (0, 1) + taxicab (0, 1) (0, 4)
                        + taxicab (0, 4) (0, 5)))).
Proof.
  apply (route_efficiency_never_default taxicab (0, 0) (0, 5) (0, 1) (0, 4)).
  apply taxicab_nonneg.
Defined.

Lemma sequencer_keeps_pickups_dropoffs_witness :
  exists r,
    _optimize_with_genetic_algorithm taxicab mixed_waypoints no_constraints
    = Returned r
    /\ or_waypoints r
       ≡ₚ pickups_of mixed_waypoints ++ dropoffs_of mixed_waypoints
    /\ NoDup (or_waypoints r)
    /\ forall w, w ∈ or_waypoints r
         <-> w ∈ mixed_waypoints
             /\ (wp_type w = "pickup" \/ wp_type w = "dropoff").
Proof.
  apply (sequencer_keeps_pickups_dropoffs taxicab mixed_waypoints
           no_constraints).
  apply (bool_decide_unpack _). by vm_compute.
Defined.

Lemma find_matches_fields_in_range_witness :
  exists result redis',
    find_matches taxicab 2025 example_match_key example_fromisoformat
      (fun _ _ => tied_rides) ∅ (0, 0) (0, 0) "2025-01-21T08:00:00"
      no_preferences
    = Returned (result, redis')
    /\ Forall (fun d =>
                 threshold <= md_compatibility_score d <= 1
                 /\ 0 <= md_route_efficiency d <= 1
                 /\ 1 <= md_driver_rating d <= 5
                 /\ 0 <= md_distance_from_origin d
                 /\ 0 <= md_distance_to_destination d
                 /\ 0 <= md_time_deviation_hours d)
              result.
Proof.
  apply (find_matches_fields_in_range taxicab 2025 example_match_key
           example_fromisoformat (fun _ _ => tied_rides) ∅ (0, 0) (0, 0)
           "2025-01-21T08:00:00" no_preferences 0).
  - apply taxicab_nonneg.
  - left. reflexivity.
  - reflexivity.
  - done.
  - done.
  - done.
  - repeat constructor; by vm_compute.
Defined.
